(** * EduGaze attention tracker: the event-decision core of [main.py]

    A shallow embedding of [get_face_id], [log_and_alert] and the frame loop
    of [monitor_stream], followed by the properties of the alert throttle,
    the dispatch bundle, the identity resolver and the loop's control flow.

    Conventions of the embedding.
    - Python integers are [Z]; a byte is a [Z] in [0, 256).
    - Readings of [time.time()] are rationals ([Q]); the rounding of
      floating-point subtraction is not modelled.
    - Every clock reading is an explicit input of the function that performs
      it, so the functions below are deterministic in their arguments.
    - A computation takes the mutable state to a new state and either
      returns or raises; the program catches no exception, so a raise ends
      every enclosing computation.
    - The collaborators that are imported from other modules (the logging
      and notification sinks, the five landmark classifiers, the absence
      threshold of [config]) are the fields of the class [Collaborators]. *)

From Stdlib Require Import ZArith QArith List String Ascii Bool Lia Lqa.
From stdpp Require Import gmap strings.
Import ListNotations.

Local Open Scope Z_scope.

(* ===================================================================== *)
(** ** Outcomes of a Python call: normal return or a raised exception     *)
(* ===================================================================== *)

Inductive Exn : Type :=
  | OverflowError      (* int.to_bytes on a value that does not fit *)
  | LogEventError      (* raised inside backend.log_activity.log_event *)
  | NotifyError.       (* raised inside backend.notify_tutor.notify_tutor *)

Inductive Outcome (A : Type) : Type :=
  | Returned (a : A)
  | Raised (e : Exn).

Arguments Returned {A} a.
Arguments Raised {A} e.

Definition returned {A} (o : Outcome A) : bool :=
  match o with Returned _ => true | Raised _ => false end.

(* ===================================================================== *)
(** ** hashlib.md5 (RFC 1321), on lists of bytes                          *)
(* ===================================================================== *)

Module MD5.

Definition mask32 (x : Z) : Z := x mod 2 ^ 32.

Definition not32 (x : Z) : Z := Z.lxor x 4294967295.

Definition rotl32 (x c : Z) : Z :=
  mask32 (Z.lor (Z.shiftl x c) (Z.shiftr x (32 - c))).

Definition shifts : list Z :=
  [7; 12; 17; 22; 7; 12; 17; 22; 7; 12; 17; 22; 7; 12; 17; 22;
   5;  9; 14; 20; 5;  9; 14; 20; 5;  9; 14; 20; 5;  9; 14; 20;
   4; 11; 16; 23; 4; 11; 16; 23; 4; 11; 16; 23; 4; 11; 16; 23;
   6; 10; 15; 21; 6; 10; 15; 21; 6; 10; 15; 21; 6; 10; 15; 21].

(** [K[i] = floor (2^32 * |sin (i + 1)|)] *)
Definition K : list Z :=
  [3614090360; 3905402710; 606105819; 3250441966;
   4118548399; 1200080426; 2821735955; 4249261313;
   1770035416; 2336552879; 4294925233; 2304563134;
   1804603682; 4254626195; 2792965006; 1236535329;
   4129170786; 3225465664; 643717713; 3921069994;
   3593408605; 38016083; 3634488961; 3889429448;
   568446438; 3275163606; 4107603335; 1163531501;
   2850285829; 4243563512; 1735328473; 2368359562;
   4294588738; 2272392833; 1839030562; 4259657740;
   2763975236; 1272893353; 4139469664; 3200236656;
   681279174; 3936430074; 3572445317; 76029189;
   3654602809; 3873151461; 530742520; 3299628645;
   4096336452; 1126891415; 2878612391; 4237533241;
   1700485571; 2399980690; 4293915773; 2240044497;
   1873313359; 4264355552; 2734768916; 1309151649;
   4149444226; 3174756917; 718787259; 3951481745].

(** [n] little-endian bytes of [x] *)
Fixpoint le_bytes (n : nat) (x : Z) : list Z :=
  match n with
  | O => []
  | S k => x mod 256 :: le_bytes k (x / 256)
  end.

Definition word_of_le (bs : list Z) : Z :=
  fold_right (fun b acc => b + 256 * acc) 0 bs.

(** Message padding: one [0x80] byte, zeros up to 56 modulo 64, then the
    bit length on 64 bits, little-endian. *)
Definition pad (msg : list Z) : list Z :=
  let len := Z.of_nat (length msg) in
  msg ++ [128] ++ repeat 0 (Z.to_nat ((55 - len) mod 64))
      ++ le_bytes 8 ((8 * len) mod 2 ^ 64).

Definition words_of_chunk (chunk : list Z) : list Z :=
  map (fun j => word_of_le (firstn 4 (skipn (4 * j) chunk))) (seq 0 16).

Definition regs : Type := Z * Z * Z * Z.

Definition init : regs := (1732584193, 4023233417, 2562383102, 271733878).

Definition step (M : list Z) (s : regs) (i : nat) : regs :=
  let '(A, B, C, D) := s in
  let iz := Z.of_nat i in
  let '(F, g) :=
    if (i <? 16)%nat then (Z.lor (Z.land B C) (Z.land (not32 B) D), iz)
    else if (i <? 32)%nat then
      (Z.lor (Z.land D B) (Z.land (not32 D) C), (5 * iz + 1) mod 16)
    else if (i <? 48)%nat then (Z.lxor (Z.lxor B C) D, (3 * iz + 5) mod 16)
    else (Z.lxor C (Z.lor B (not32 D)), (7 * iz) mod 16) in
  let F' := mask32 (F + A + nth i K 0 + nth (Z.to_nat g) M 0) in
  (D, mask32 (B + rotl32 F' (nth i shifts 0)), B, C).

Definition compress (h : regs) (chunk : list Z) : regs :=
  let '(a0, b0, c0, d0) := h in
  let '(A, B, C, D) := fold_left (step (words_of_chunk chunk)) (seq 0 64) h in
  (mask32 (a0 + A), mask32 (b0 + B), mask32 (c0 + C), mask32 (d0 + D)).

Fixpoint chunks (n : nat) (data : list Z) : list (list Z) :=
  match n with
  | O => []
  | S k => firstn 64 data :: chunks k (skipn 64 data)
  end.

Definition digest (msg : list Z) : list Z :=
  let padded := pad msg in
  let '(a, b, c, d) :=
    fold_left compress (chunks (length padded / 64) padded) init in
  le_bytes 4 a ++ le_bytes 4 b ++ le_bytes 4 c ++ le_bytes 4 d.

Definition hex_char (d : Z) : ascii :=
  if d <? 10 then ascii_of_nat (48 + Z.to_nat d)
  else ascii_of_nat (87 + Z.to_nat d).

Fixpoint hex (bs : list Z) : string :=
  match bs with
  | [] => EmptyString
  | b :: rest => String (hex_char (b / 16)) (String (hex_char (b mod 16)) (hex rest))
  end.

(** [hashlib.md5(data).hexdigest()] *)
Definition hexdigest (msg : list Z) : string := hex (digest msg).

End MD5.

(* ===================================================================== *)
(** ** get_face_id                                                        *)
(* ===================================================================== *)

(** A dlib point [p], read through [p.x] and [p.y]; [shape.parts()] is the
    list of the landmarks of one face. *)
Record Point : Type := { px : Z; py : Z }.

Definition Shape : Type := list Point.

(** The landmark model loaded by the program is the 68-point predictor. *)
Definition LANDMARK_COUNT : nat := 68.

(** [num.to_bytes(2, byteorder='big', signed=True)] *)
Definition to_bytes2 (num : Z) : Outcome (list Z) :=
  if (-32768 <=? num) && (num <=? 32767) then
    let u := num mod 65536 in
    Returned [u / 256; u mod 256]
  else Raised OverflowError.

(** The loop [for num in flat: data.extend(num.to_bytes(...))]. *)
Fixpoint extend_all (flat : list Z) (data : list Z) : Outcome (list Z) :=
  match flat with
  | [] => Returned data
  | num :: rest =>
      match to_bytes2 num with
      | Returned bs => extend_all rest (data ++ bs)
      | Raised e => Raised e
      end
  end.

Definition get_face_id (shape : Shape) : Outcome string :=
  let landmarks := map (fun p => (px p, py p)) shape in
  let flat := flat_map (fun point => [fst point; snd point]) landmarks in
  match extend_all flat [] with
  | Returned data => Returned (MD5.hexdigest data)
  | Raised e => Raised e
  end.

(** *** The serialization in the words of the design: every coordinate is a
    16-bit two's complement value, most significant byte first, and the
    landmarks follow each other in order, x before y. *)

Definition in_int16 (n : Z) : bool := (-32768 <=? n) && (n <=? 32767).

Definition be16 (n : Z) : list Z := [(n mod 65536) / 256; n mod 256].

Definition serialize (shape : Shape) : list Z :=
  flat_map (fun p => be16 (px p) ++ be16 (py p)) shape.

Definition int16_of_be (hi lo : Z) : Z :=
  let u := 256 * hi + lo in
  if u <? 32768 then u else u - 65536.

Fixpoint deserialize (data : list Z) (n : nat) : Shape :=
  match n, data with
  | S k, xh :: xl :: yh :: yl :: rest =>
      {| px := int16_of_be xh xl; py := int16_of_be yh yl |} :: deserialize rest k
  | _, _ => []
  end.

(** The list [flat] built by the two comprehensions of the source. *)
Definition flat_of (shape : Shape) : list Z :=
  flat_map (fun point : Z * Z => [fst point; snd point])
           (map (fun p => (px p, py p)) shape).

Definition well_formed (shape : Shape) : bool :=
  forallb (fun p => in_int16 (px p) && in_int16 (py p)) shape.

Definition is_byte (b : Z) : bool := (0 <=? b) && (b <? 256).

(** *** Known answers of the digest *)

(** The bytes of a text of ASCII characters. *)
Definition bytes_of_string (s : string) : list Z :=
  map (fun a => Z.of_nat (nat_of_ascii a)) (list_ascii_of_string s).

(** The test suite of RFC 1321 (appendix A.5): messages and their digests. *)
Definition md5_test_suite : list (string * string) :=
  [("", "d41d8cd98f00b204e9800998ecf8427e");
   ("a", "0cc175b9c0f1b6a831c399e269772661");
   ("abc", "900150983cd24fb0d6963f7d28e17f72");
   ("message digest", "f96b697d7cb7938d525a2f31aaf161d0");
   ("abcdefghijklmnopqrstuvwxyz", "c3fcd3d76192e4007dfb496cca67e13b");
   ("ABCDEFGHIJKLMNOPQRSTUVWXYZabcdefghijklmnopqrstuvwxyz0123456789",
    "d174ab98d277d9f5a5611c2c9f419d9f");
   ("12345678901234567890123456789012345678901234567890123456789012345678901234567890",
    "57edf4a22be3c955ac49da2e2107b67a")]%string.

(** [MD5.hexdigest] gives every digest of the suite. *)
Definition passes (suite : list (string * string)) : bool :=
  forallb (fun entry => String.eqb (MD5.hexdigest (bytes_of_string (fst entry))) (snd entry))
          suite.

(** A face of the full landmark count, and the same face with the abscissa
    of its first landmark out of the 16-bit range. *)
Definition full_shape : Shape :=
  map (fun i => {| px := 7 * i - 100; py := 500 - 3 * i |})
      (map Z.of_nat (seq 0 LANDMARK_COUNT)).

Definition wide_shape : Shape :=
  {| px := 40000; py := 500 |} :: tl full_shape.

(* ===================================================================== *)
(** ** Session state and the collaborators                                *)
(* ===================================================================== *)

(** One reading of the clocks taken by [log_and_alert]: [time.time()] and
    the text of [datetime.now().strftime("%Y-%m-%d %H:%M:%S")]. *)
Record Clock : Type := { time_time : Q; strftime : string }.

(** A row of [st.session_state.logs]:
    [{"Face ID": face_id, "Event": event, "Time": ...}]. *)
Record LogRow : Type := { row_face_id : string; row_event : string; row_time : string }.

(** Modelled from the spec: [utils.time_tracker.AbsenceTimer] is imported
    but is not among the sources; its state is the record of section 3,
    [{is_absent, absent_since}]. *)
Record AbsenceState : Type := { is_absent : bool; absent_since : option Q }.

(** Everything the program mutates.  [warnings], [log_calls] and
    [notify_calls] record, oldest first, the calls received by the warning
    manager and by the two sinks; [stop_polls] counts the reads of the
    ["stop"] entry of the session state. *)
Record State : Type := {
  last_alert_time : gmap string Q;      (* st.session_state.last_alert_time *)
  logs : list LogRow;                   (* st.session_state.logs *)
  warnings : list string;               (* warn_manager.issue_warning(event) *)
  log_calls : list (string * string);   (* log_event(face_id, event) *)
  notify_calls : list string;           (* notify_tutor(face_id) *)
  absence_timer : AbsenceState;         (* absence_timer *)
  stop_flag : bool;                     (* st.session_state["stop"] *)
  stop_polls : nat;
  cap_released : bool                   (* cap.release() has run *)
}.

Definition ALERT_INTERVAL : Q := 10.

(** The code imported from modules that are not among the sources.  The two
    sinks may raise; whether they do may depend on the state in which they
    are called and on their arguments.  Their return values are discarded
    by the program.  The classifiers are predicates of the landmarks. *)
Class Collaborators : Type := {
  log_event_raises : State -> string -> string -> bool;
  notify_tutor_raises : State -> string -> bool;
  is_drowsy : Shape -> bool;
  is_blinking : Shape -> bool;
  is_watching_away : Shape -> bool;
  is_head_down : Shape -> bool;
  is_talking : Shape -> bool;
  ABSENCE_LIMIT : Q                     (* threshold read from config *)
}.

(** *** Computations: a state transformer that may end in an exception.
    The state reached when the exception leaves is kept, because the
    mutations made before a raise are not undone. *)

Definition M (A : Type) : Type := State -> State * Outcome A.

#[global] Instance M_ret : MRet M := fun A a st => (st, Returned a).

#[global] Instance M_bind : MBind M := fun A B k m st =>
  match m st with
  | (st1, Returned a) => k a st1
  | (st1, Raised e) => (st1, Raised e)
  end.

Definition lift {A} (o : Outcome A) : M A := fun st => (st, o).

Definition when (b : bool) (m : M unit) : M unit := if b then m else mret tt.

Fixpoint for_each {A} (body : A -> M unit) (l : list A) : M unit :=
  match l with
  | [] => mret tt
  | x :: rest => body x ;; for_each body rest
  end.

(** *** Primitive mutations *)

Definition set_last_alert_time (event : string) (now : Q) : M unit := fun st =>
  ({| last_alert_time := <[event := now]> (last_alert_time st);
      logs := logs st; warnings := warnings st; log_calls := log_calls st;
      notify_calls := notify_calls st; absence_timer := absence_timer st;
      stop_flag := stop_flag st; stop_polls := stop_polls st;
      cap_released := cap_released st |}, Returned tt).

Definition logs_append (row : LogRow) : M unit := fun st =>
  ({| last_alert_time := last_alert_time st;
      logs := logs st ++ [row]; warnings := warnings st; log_calls := log_calls st;
      notify_calls := notify_calls st; absence_timer := absence_timer st;
      stop_flag := stop_flag st; stop_polls := stop_polls st;
      cap_released := cap_released st |}, Returned tt).

Definition issue_warning (event : string) : M unit := fun st =>
  ({| last_alert_time := last_alert_time st;
      logs := logs st; warnings := warnings st ++ [event]; log_calls := log_calls st;
      notify_calls := notify_calls st; absence_timer := absence_timer st;
      stop_flag := stop_flag st; stop_polls := stop_polls st;
      cap_released := cap_released st |}, Returned tt).

Definition record_log_call (face_id event : string) (st : State) : State :=
  {| last_alert_time := last_alert_time st;
     logs := logs st; warnings := warnings st;
     log_calls := log_calls st ++ [(face_id, event)];
     notify_calls := notify_calls st; absence_timer := absence_timer st;
     stop_flag := stop_flag st; stop_polls := stop_polls st;
     cap_released := cap_released st |}.

Definition record_notify_call (face_id : string) (st : State) : State :=
  {| last_alert_time := last_alert_time st;
     logs := logs st; warnings := warnings st; log_calls := log_calls st;
     notify_calls := notify_calls st ++ [face_id]; absence_timer := absence_timer st;
     stop_flag := stop_flag st; stop_polls := stop_polls st;
     cap_released := cap_released st |}.

Definition set_absence_timer (a : AbsenceState) : M unit := fun st =>
  ({| last_alert_time := last_alert_time st;
      logs := logs st; warnings := warnings st; log_calls := log_calls st;
      notify_calls := notify_calls st; absence_timer := a;
      stop_flag := stop_flag st; stop_polls := stop_polls st;
      cap_released := cap_released st |}, Returned tt).

Definition set_stop_flag (b : bool) : M unit := fun st =>
  ({| last_alert_time := last_alert_time st;
      logs := logs st; warnings := warnings st; log_calls := log_calls st;
      notify_calls := notify_calls st; absence_timer := absence_timer st;
      stop_flag := b; stop_polls := stop_polls st;
      cap_released := cap_released st |}, Returned tt).

(** [st.session_state.get("stop", False)] *)
Definition poll_stop : M bool := fun st =>
  ({| last_alert_time := last_alert_time st;
      logs := logs st; warnings := warnings st; log_calls := log_calls st;
      notify_calls := notify_calls st; absence_timer := absence_timer st;
      stop_flag := stop_flag st; stop_polls := S (stop_polls st);
      cap_released := cap_released st |}, Returned (stop_flag st)).

(** [cap.release()] *)
Definition cap_release : M unit := fun st =>
  ({| last_alert_time := last_alert_time st;
      logs := logs st; warnings := warnings st; log_calls := log_calls st;
      notify_calls := notify_calls st; absence_timer := absence_timer st;
      stop_flag := stop_flag st; stop_polls := stop_polls st;
      cap_released := true |}, Returned tt).

(** Modelled from the spec: the two operations of [AbsenceTimer], which is
    not among the sources (section 4.2).  [now] is the clock reading the
    operation takes. *)
Definition absence_update (absent : bool) (now : Q) (a : AbsenceState) : AbsenceState :=
  if absent then
    if is_absent a then a
    else {| is_absent := true; absent_since := Some now |}
  else {| is_absent := false; absent_since := None |}.

Definition absence_exceeded (limit now : Q) (a : AbsenceState) : bool :=
  is_absent a &&
  match absent_since a with
  | Some since => Qle_bool limit (now - since)
  | None => false
  end.

Section Program.

Context {collab : Collaborators}.

(** [log_event(face_id, event)] of the logging sink: the call is made,
    then it returns or raises. *)
Definition log_event (face_id event : string) : M unit := fun st =>
  (record_log_call face_id event st,
   if log_event_raises st face_id event then Raised LogEventError else Returned tt).

(** [notify_tutor(face_id)] of the notification sink. *)
Definition notify_tutor (face_id : string) : M unit := fun st =>
  (record_notify_call face_id st,
   if notify_tutor_raises st face_id then Raised NotifyError else Returned tt).

(** The guard of [log_and_alert]:
    [now - last_alert_time.get(event, 0) >= ALERT_INTERVAL]. *)
Definition cooldown_elapsed (st : State) (event : string) (now : Q) : bool :=
  let last_time := default 0%Q (last_alert_time st !! event) in
  Qle_bool ALERT_INTERVAL (now - last_time).

Definition log_and_alert (face_id event : string) (clk : Clock) : M unit := fun st =>
  let now := time_time clk in
  if cooldown_elapsed st event now then
    (issue_warning event ;;
     log_event face_id event ;;
     notify_tutor face_id ;;
     logs_append {| row_face_id := face_id; row_event := event;
                    row_time := strftime clk |} ;;
     set_last_alert_time event now) st
  else (st, Returned tt).

(** *** The frame loop *)

(** One detected face: its landmarks and the clock readings that the four
    alertable branches would take. *)
Record FaceObs : Type := {
  shape : Shape;                (* predictor(gray, face) *)
  at_drowsy : Clock;
  at_away : Clock;
  at_down : Clock;
  at_talk : Clock
}.

(** What one iteration of [while cap.isOpened()] observes. *)
Record Frame : Type := {
  stop_pressed : bool;          (* the interface set ["stop"] since the last frame *)
  is_opened : bool;             (* cap.isOpened() *)
  ret : bool;                   (* ret of cap.read() *)
  is_camera_on : bool;             (* is_camera_on(cap) *)
  faces : list FaceObs;         (* one entry per face of detector(gray) *)
  at_camera_off : Clock;
  at_update : Q;                (* clock inside absence_timer.update *)
  at_exceeded : Q;              (* clock inside absence_timer.exceeded_limit *)
  at_left : Clock
}.

(** Lines 94 to 107: the five verdicts of one face, acted upon in the
    order of the source. The list [alerts] only feeds the status line of
    the page and is left out. *)
Definition dispatch_verdicts (face_id : string) (f : FaceObs) : M unit :=
  let drowsy := is_drowsy (shape f) in
  let blinking := is_blinking (shape f) in
  let looking_away := is_watching_away (shape f) in
  let head_down := is_head_down (shape f) in
  let talking := is_talking (shape f) in
  when drowsy (log_and_alert face_id "Drowsiness" (at_drowsy f)) ;;
  when blinking (log_event face_id "Blinking") ;;
  when looking_away (log_and_alert face_id "Looking Away" (at_away f)) ;;
  when head_down (log_and_alert face_id "Head Down" (at_down f)) ;;
  when talking (log_and_alert face_id "Talking" (at_talk f)).

(** The body of [for face in faces]. *)
Definition process_face (f : FaceObs) : M unit :=
  face_id ← lift (get_face_id (shape f));
  dispatch_verdicts face_id f.

Inductive Flow : Type := Continue | Break.

(** The environment writes the stop request into the session state. *)
Definition observe_stop (f : Frame) : M unit := fun st =>
  set_stop_flag (stop_flag st || stop_pressed f) st.

Definition update_absence (absent : bool) (now : Q) : M unit := fun st =>
  set_absence_timer (absence_update absent now (absence_timer st)) st.

Definition exceeded_limit (now : Q) : M bool := fun st =>
  (st, Returned (absence_exceeded ABSENCE_LIMIT now (absence_timer st))).

(** The body of the [while] loop, lines 65 to 117. *)
Definition iteration (f : Frame) : M Flow :=
  if negb (ret f) || negb (is_camera_on f) then
    log_and_alert "unknown" "Camera turned off" (at_camera_off f) ;;
    mret (M := M) Continue                        (* time.sleep(1); continue *)
  else if (length (faces f) =? 0)%nat then
    update_absence true (at_update f) ;;
    exceeded ← exceeded_limit (at_exceeded f);
    when exceeded (log_and_alert "unknown" "User left screen" (at_left f)) ;;
    mret (M := M) Continue
  else
    update_absence false (at_update f) ;;
    for_each process_face (faces f) ;;
    stop ← poll_stop;
    mret (M := M) (if stop : bool then Break else Continue).

(** The loop runs as long as frames are supplied. *)
Inductive LoopStatus : Type :=
  | Iterating     (* supplied frames used up, the loop has not ended *)
  | Exited.       (* the loop has ended, by its condition or by break *)

Fixpoint frame_loop (frames : list Frame) : M LoopStatus :=
  match frames with
  | [] => mret (M := M) Iterating
  | f :: rest =>
      observe_stop f ;;
      if negb (is_opened f) then mret (M := M) Exited
      else
        flow ← iteration f;
        match flow with
        | Break => mret (M := M) Exited
        | Continue => frame_loop rest
        end
  end.

Definition monitor_stream (frames : list Frame) : M LoopStatus :=
  status ← frame_loop frames;
  match status with
  | Exited =>
      cap_release ;;
      set_stop_flag false ;;
      mret (M := M) Exited
  | Iterating => mret (M := M) Iterating
  end.

End Program.

(** *** The states a dispatch goes through, written out *)

Section Dispatch.

Context {collab : Collaborators}.

(** After [warn_manager.issue_warning(event)]. *)
Definition warned (event : string) (st : State) : State :=
  fst (issue_warning event st).

(** After the call of [log_event], whatever its outcome. *)
Definition logged (face_id event : string) (st : State) : State :=
  record_log_call face_id event (warned event st).

(** After the call of [notify_tutor], whatever its outcome. *)
Definition notified (face_id event : string) (st : State) : State :=
  record_notify_call face_id (logged face_id event st).

(** After the whole bundle, when neither sink raised. *)
Definition dispatched (face_id event : string) (clk : Clock) (st : State) : State :=
  let st3 := notified face_id event st in
  {| last_alert_time := <[event := time_time clk]> (last_alert_time st3);
     logs := logs st3 ++ [{| row_face_id := face_id; row_event := event;
                             row_time := strftime clk |}];
     warnings := warnings st3; log_calls := log_calls st3;
     notify_calls := notify_calls st3; absence_timer := absence_timer st3;
     stop_flag := stop_flag st3; stop_polls := stop_polls st3;
     cap_released := cap_released st3 |}.

(** Does the logging sink raise when the dispatch from [st] calls it? *)
Definition log_sink_fails (face_id event : string) (st : State) : bool :=
  log_event_raises (warned event st) face_id event.

(** Does the notification sink raise when the dispatch from [st] calls it? *)
Definition notify_sink_fails (face_id event : string) (st : State) : bool :=
  notify_tutor_raises (logged face_id event st) face_id.

End Dispatch.

(** *** Concrete collaborators and states used by the examples *)

Module Scenario.

Definition fresh : State :=
  {| last_alert_time := ∅; logs := []; warnings := []; log_calls := [];
     notify_calls := []; absence_timer := {| is_absent := false; absent_since := None |};
     stop_flag := false; stop_polls := 0; cap_released := false |}.

Definition at_time (t : Q) : Clock :=
  {| time_time := t; strftime := "2024-01-01 00:00:00" |}.

(** Sinks that always return; a blink classifier that fires on every
    shape whose first landmark has an even abscissa, a drowsiness
    classifier that fires when it is negative. *)
Definition reliable : Collaborators :=
  {| log_event_raises := fun _ _ _ => false;
     notify_tutor_raises := fun _ _ => false;
     is_drowsy := fun s => match s with p :: _ => px p <? 0 | [] => false end;
     is_blinking := fun s => match s with p :: _ => Z.even (px p) | [] => false end;
     is_watching_away := fun _ => false;
     is_head_down := fun _ => false;
     is_talking := fun _ => false;
     ABSENCE_LIMIT := 2 |}.

(** The same with a notification sink that always raises. *)
Definition notify_down : Collaborators :=
  {| log_event_raises := fun _ _ _ => false;
     notify_tutor_raises := fun _ _ => true;
     is_drowsy := fun s => match s with p :: _ => px p <? 0 | [] => false end;
     is_blinking := fun s => match s with p :: _ => Z.even (px p) | [] => false end;
     is_watching_away := fun _ => false;
     is_head_down := fun _ => false;
     is_talking := fun _ => false;
     ABSENCE_LIMIT := 2 |}.

Definition two_landmarks : Shape :=
  [{| px := 1; py := 2 |}; {| px := -3; py := 300 |}].

Definition face_at (x y : Z) : FaceObs :=
  {| shape := [{| px := x; py := y |}; {| px := 3; py := -4 |}];
     at_drowsy := at_time 100; at_away := at_time 100;
     at_down := at_time 100; at_talk := at_time 100 |}.

(** A session in which the subject has been away since time 90. *)
Definition away : State :=
  {| last_alert_time := ∅; logs := []; warnings := []; log_calls := [];
     notify_calls := [];
     absence_timer := {| is_absent := true; absent_since := Some 90%Q |};
     stop_flag := false; stop_polls := 0; cap_released := false |}.

(** A frame that is read and shows the given faces. *)
Definition seen (pressed : bool) (fs : list FaceObs) : Frame :=
  {| stop_pressed := pressed; is_opened := true; ret := true; is_camera_on := true;
     faces := fs; at_camera_off := at_time 100; at_update := 100;
     at_exceeded := 100; at_left := at_time 100 |}.

(** A frame whose read fails. *)
Definition unread (pressed : bool) (t : Q) : Frame :=
  {| stop_pressed := pressed; is_opened := true; ret := false; is_camera_on := true;
     faces := []; at_camera_off := at_time t; at_update := t;
     at_exceeded := t; at_left := at_time t |}.

(** Two frames with three faces in all, two of which blink. *)
Definition blink_run : list Frame :=
  [seen false [face_at 2 0; face_at 1 0]; seen false [face_at 4 4]].

(** A frame with a face, during which the stop entry is set. *)
Definition stop_frame : Frame := seen true [face_at 2 0].

(** Frames without a face or without a read, with the stop entry set from
    the first one on. *)
Definition faceless_run : list Frame := [seen true []; unread true 100; seen true []].

(** A frame with a drowsy face. *)
Definition drowsy_frame : Frame := seen false [face_at (-2) 0].

(** Three failed reads in a row. *)
Definition outage : list Frame := [unread false 100; unread false 105; unread true 111].

End Scenario.

(** *** Vocabulary of the statements *)

(** If [m], run from [st], returns, its result and the state it returns in
    satisfy [Q]. *)
Definition wlp {A} (m : M A) (Q : A -> State -> Prop) (st : State) : Prop :=
  match m st with
  | (st', Returned a) => Q a st'
  | (_, Raised _) => True
  end.

(** [m] returns from every state. *)
Definition total {A} (m : M A) : Prop :=
  forall st, returned (snd (m st)) = true.

(** Whatever its outcome, [m] takes a state to one related to it by [R]. *)
Definition preserves {A} (R : State -> State -> Prop) (m : M A) : Prop :=
  forall st, R st (fst (m st)).

(** The calls of the logging sink, the ledger rows and the warnings that
    carry the event kind "Blinking". *)
Definition is_blink_call (c : string * string) : bool := String.eqb (snd c) "Blinking".

Definition blink_calls (st : State) : list (string * string) :=
  List.filter is_blink_call (log_calls st).

Definition is_blink_row (r : LogRow) : bool := String.eqb (row_event r) "Blinking".

Definition blink_rows (st : State) : list LogRow := List.filter is_blink_row (logs st).

Definition blink_warnings (st : State) : list string :=
  List.filter (fun w => String.eqb w "Blinking") (warnings st).

(** The event kinds that [dispatch_verdicts] passes to [log_and_alert]. *)
Definition alertable_events : list string :=
  ["Drowsiness"; "Looking Away"; "Head Down"; "Talking"]%string.

(** The frames on which the read fails or the camera is reported off. *)
Definition camera_off (f : Frame) : bool := negb (ret f) || negb (is_camera_on f).

(** The faces whose verdicts an iteration on [f] evaluates. *)
Definition faces_processed (f : Frame) : list FaceObs :=
  if camera_off f then [] else faces f.

(** Relations between the state before and the state after a computation. *)

(** The stop entry, the count of its reads and the capture handle are as
    before. *)
Definition control_same (st st' : State) : Prop :=
  stop_flag st' = stop_flag st
  /\ stop_polls st' = stop_polls st
  /\ cap_released st' = cap_released st.

(** The capture handle is as before. *)
Definition released_same (st st' : State) : Prop :=
  cap_released st' = cap_released st.

(** The stop entry is as before. *)
Definition stop_same (st st' : State) : Prop := stop_flag st' = stop_flag st.

(** The timestamp map, the ledger, the notifications and the warnings are
    as before. *)
Definition alerts_same (st st' : State) : Prop :=
  last_alert_time st' = last_alert_time st
  /\ logs st' = logs st
  /\ notify_calls st' = notify_calls st
  /\ warnings st' = warnings st.

(** Nothing that carries the event kind "Blinking" reached the throttle,
    the ledger or the warning manager. *)
Definition blink_quiet (st st' : State) : Prop :=
  last_alert_time st' !! "Blinking"%string = last_alert_time st !! "Blinking"%string
  /\ blink_rows st' = blink_rows st
  /\ blink_warnings st' = blink_warnings st.

Definition is_camera_row (r : LogRow) : Prop :=
  row_face_id r = "unknown"%string /\ row_event r = "Camera turned off"%string.

(** The absence timer is as before, the timestamp map differs at most under
    "Camera turned off", and the ledger has only grown by rows of that
    event. *)
Definition only_camera_alerts (st st' : State) : Prop :=
  absence_timer st' = absence_timer st
  /\ (forall key : string,
        key <> "Camera turned off"%string ->
        last_alert_time st' !! key = last_alert_time st !! key)
  /\ (exists rows, logs st' = logs st ++ rows /\ Forall is_camera_row rows).

(** The log calls for "Blinking" have grown by [calls]. *)
Definition blink_calls_grow (calls : list (string * string)) (st st' : State) : Prop :=
  blink_calls st' = blink_calls st ++ calls.

Section Verdicts.

Context {collab : Collaborators}.

(** The log calls that the blinks of the faces [fs] are expected to
    produce: one per face on which the blink classifier fires, under the
    identifier of that face, in the order of the faces. *)
Definition expected_blink_calls (fs : list FaceObs) : list (string * string) :=
  map (fun f => (MD5.hexdigest (serialize (shape f)), "Blinking"%string))
      (List.filter (fun f => is_blinking (shape f)) fs).

(** Line 98 is reached with a true blink verdict: the identifier of the
    face has been computed, the blink classifier fires, and the alert for
    drowsiness that comes before, if the face is drowsy, returns. *)
Definition blink_reached (f : FaceObs) (st : State) : bool :=
  well_formed (shape f) && is_blinking (shape f)
  && returned (snd (when (is_drowsy (shape f))
                         (log_and_alert (MD5.hexdigest (serialize (shape f)))
                                        "Drowsiness" (at_drowsy f)) st)).

(** No classifier but the blink classifier fires on the face. *)
Definition blink_only (f : FaceObs) : bool :=
  negb (is_drowsy (shape f)) && negb (is_watching_away (shape f))
  && negb (is_head_down (shape f)) && negb (is_talking (shape f)).

(** Neither sink ever raises. *)
Definition sinks_reliable : Prop :=
  (forall st face_id event, log_event_raises st face_id event = false)
  /\ (forall st face_id, notify_tutor_raises st face_id = false).

(** A frame of a run that is not asked to stop, on an open capture, whose
    processed faces all have coordinates in range. *)
Definition frame_ready (f : Frame) : bool :=
  negb (stop_pressed f) && is_opened f
  && forallb (fun face => well_formed (shape face)) (faces_processed f).

(** A frame that is read, shows at least one face, and on whose faces no
    classifier but the blink classifier fires. *)
Definition blink_frame (f : Frame) : bool :=
  negb (camera_off f) && negb (length (faces f) =? 0)%nat
  && forallb blink_only (faces f).

End Verdicts.

(** *** Vocabulary of the properties of a whole run *)

(** [m] takes a state to one related to it by [R] when it returns, and
    also when it raises if [strict] is set. *)
Definition respects {A} (strict : bool) (R : State -> State -> Prop) (m : M A) : Prop :=
  forall st,
    match m st with
    | (st', Returned _) => R st st'
    | (st', Raised _) => if strict then R st st' else True
    end.

(** The time [log_and_alert] compares the clock with: the one stored for the
    event, 0 when there is none. *)
Definition last_time (st : State) (event : string) : Q :=
  default 0%Q (last_alert_time st !! event).

(** Every stored time is as before or has advanced by the interval at
    least. *)
Definition timestamps_advance (st st' : State) : Prop :=
  forall event : string,
    last_alert_time st' !! event = last_alert_time st !! event
    \/ (last_time st event + ALERT_INTERVAL <= last_time st' event)%Q.

(** The ledger rows of one event kind. *)
Definition event_rows (event : string) (st : State) : list LogRow :=
  List.filter (fun r => String.eqb (row_event r) event) (logs st).

(** Any two of the readings are less than the interval apart. *)
Definition within_window (T : list Q) : bool :=
  forallb (fun t1 => forallb (fun t2 => negb (Qle_bool ALERT_INTERVAL (t2 - t1))) T) T.

(** The event has a stored time that suppresses every reading of [T]. *)
Definition locked (event : string) (T : list Q) (st : State) : Prop :=
  exists t, last_alert_time st !! event = Some t
            /\ forall t', In t' T -> (t' - t < ALERT_INTERVAL)%Q.

(** At most one row of the event has been added, none if the event was
    locked, and the event is locked once a row has been added. *)
Definition one_alert (event : string) (T : list Q) (st st' : State) : Prop :=
  (locked event T st -> event_rows event st' = event_rows event st /\ locked event T st')
  /\ (event_rows event st' = event_rows event st
      \/ (exists row, event_rows event st' = event_rows event st ++ [row])
         /\ locked event T st').

(** A row of the camera or of the absence alert carries "unknown"; a row of
    a verdict carries an identifier of 32 characters. *)
Definition well_tagged (r : LogRow) : Prop :=
  (row_face_id r = "unknown"%string
   /\ (row_event r = "Camera turned off"%string \/ row_event r = "User left screen"%string))
  \/ (String.length (row_face_id r) = 32%nat /\ In (row_event r) alertable_events).

(** The ledger has only grown, by rows that are well tagged. *)
Definition ledger_grows (st st' : State) : Prop :=
  exists rows, logs st' = logs st ++ rows /\ Forall well_tagged rows.

(** Rows follow notifications, notifications follow warnings, and the calls
    of the logging sink are those of the warnings and of the blinks. *)
Definition calls_ordered (st st' : State) : Prop :=
  (length (logs st) <= length (logs st'))%nat
  /\ (length (blink_calls st) <= length (blink_calls st'))%nat
  /\ (length (logs st') + length (notify_calls st)
      <= length (notify_calls st') + length (logs st))%nat
  /\ (length (notify_calls st') + length (warnings st)
      <= length (warnings st') + length (notify_calls st))%nat
  /\ (length (log_calls st') + length (warnings st) + length (blink_calls st)
      = length (log_calls st) + length (warnings st') + length (blink_calls st'))%nat.

(** As many rows as notifications as warnings have been added. *)
Definition calls_matched (st st' : State) : Prop :=
  (length (logs st') + length (notify_calls st)
   = length (notify_calls st') + length (logs st))%nat
  /\ (length (notify_calls st') + length (warnings st)
      = length (warnings st') + length (notify_calls st))%nat.

(** How many entries a list of the state has gained. *)
Definition added {A} (field : State -> list A) (st st' : State) : nat :=
  length (field st') - length (field st).

(** A frame on an open capture that is not read or shows no face. *)
Definition faceless (f : Frame) : bool :=
  is_opened f && (camera_off f || (length (faces f) =? 0)%nat).

(** A frame on an open capture that is read and shows faces, all with
    coordinates in range. *)
Definition face_frame (f : Frame) : bool :=
  is_opened f && negb (camera_off f) && negb (length (faces f) =? 0)%nat
  && forallb (fun face => well_formed (shape face)) (faces f).

(** One call of [log_and_alert]: identifier, event kind, clock reading. *)
Record AlertCall : Type := { call_id : string; call_event : string; call_clock : Clock }.

Section Calls.

Context {collab : Collaborators}.

Definition call_if (made : bool) (face_id event : string) (clk : Clock) : list AlertCall :=
  if made then [{| call_id := face_id; call_event := event; call_clock := clk |}] else [].

(** The calls of [log_and_alert] that [process_face] makes on a face whose
    coordinates are in range, when the calls before them return. *)
Definition face_calls (face : FaceObs) : list AlertCall :=
  let face_id := MD5.hexdigest (serialize (shape face)) in
  call_if (is_drowsy (shape face)) face_id "Drowsiness" (at_drowsy face)
  ++ call_if (is_watching_away (shape face)) face_id "Looking Away" (at_away face)
  ++ call_if (is_head_down (shape face)) face_id "Head Down" (at_down face)
  ++ call_if (is_talking (shape face)) face_id "Talking" (at_talk face).

(** The same for an iteration; the call of the absence alert is counted
    whether or not the limit is exceeded. *)
Definition frame_calls (f : Frame) : list AlertCall :=
  if camera_off f then call_if true "unknown" "Camera turned off" (at_camera_off f)
  else if (length (faces f) =? 0)%nat
       then call_if true "unknown" "User left screen" (at_left f)
       else flat_map face_calls (faces f).

Definition run_calls (frames : list Frame) : list AlertCall :=
  flat_map frame_calls frames.

(** The clock readings taken for one event kind. *)
Definition run_readings (event : string) (frames : list Frame) : list Q :=
  map (fun c => time_time (call_clock c))
      (List.filter (fun c => String.eqb (call_event c) event) (run_calls frames)).

End Calls.

Section CallsMade.

Context {collab : Collaborators}.

(** The five steps of [dispatch_verdicts], each with the call of
    [log_and_alert] it makes when it is reached. *)
Definition verdict_steps (face_id : string) (f : FaceObs) : list (list AlertCall * M unit) :=
  [(call_if (is_drowsy (shape f)) face_id "Drowsiness" (at_drowsy f),
    when (is_drowsy (shape f)) (log_and_alert face_id "Drowsiness" (at_drowsy f)));
   ([], when (is_blinking (shape f)) (log_event face_id "Blinking"));
   (call_if (is_watching_away (shape f)) face_id "Looking Away" (at_away f),
    when (is_watching_away (shape f)) (log_and_alert face_id "Looking Away" (at_away f)));
   (call_if (is_head_down (shape f)) face_id "Head Down" (at_down f),
    when (is_head_down (shape f)) (log_and_alert face_id "Head Down" (at_down f)));
   (call_if (is_talking (shape f)) face_id "Talking" (at_talk f),
    when (is_talking (shape f)) (log_and_alert face_id "Talking" (at_talk f)))].

(** Steps run one after the other until one raises. *)
Definition run_steps (steps : list (list AlertCall * M unit)) : M unit :=
  for_each (fun step => snd step) steps.

(** The calls of [log_and_alert] made by steps run from [st]: those of the
    first step, then, if it returns, those of the next ones. *)
Fixpoint steps_calls (steps : list (list AlertCall * M unit)) (st : State)
  : list AlertCall :=
  match steps with
  | [] => []
  | step :: rest =>
      fst step
      ++ match snd step st with
         | (st1, Returned _) => steps_calls rest st1
         | (_, Raised _) => []
         end
  end.

(** The calls of [log_and_alert] that [process_face] makes from [st]. *)
Definition face_calls_made (f : FaceObs) (st : State) : list AlertCall :=
  match get_face_id (shape f) with
  | Returned face_id => steps_calls (verdict_steps face_id f) st
  | Raised _ => []
  end.

(** The same for [for face in faces], which an exception leaves. *)
Fixpoint faces_calls_made (fs : list FaceObs) (st : State) : list AlertCall :=
  match fs with
  | [] => []
  | face :: rest =>
      face_calls_made face st
      ++ match process_face face st with
         | (st1, Returned _) => faces_calls_made rest st1
         | (_, Raised _) => []
         end
  end.

(** The same for one iteration: the camera alert on a failed read, the
    absence alert when the limit is found exceeded, the verdicts of the
    faces otherwise. *)
Definition iteration_calls_made (f : Frame) (st : State) : list AlertCall :=
  if camera_off f then call_if true "unknown" "Camera turned off" (at_camera_off f)
  else if (length (faces f) =? 0)%nat then
    call_if (absence_exceeded ABSENCE_LIMIT (at_exceeded f)
               (absence_update true (at_update f) (absence_timer st)))
            "unknown" "User left screen" (at_left f)
  else faces_calls_made (faces f) (fst (update_absence false (at_update f) st)).

(** The same for the loop, up to the frame on which it ends or raises. *)
Fixpoint calls_made (frames : list Frame) (st : State) : list AlertCall :=
  match frames with
  | [] => []
  | f :: rest =>
      let st_o := fst (observe_stop f st) in
      if negb (is_opened f) then []
      else iteration_calls_made f st_o
           ++ match iteration f st_o with
              | (st1, Returned Continue) => calls_made rest st1
              | (_, Returned Break) => []
              | (_, Raised _) => []
              end
  end.

(** The clock readings that the run from [st] takes for one event kind. *)
Definition readings_taken (event : string) (frames : list Frame) (st : State) : list Q :=
  map (fun c => time_time (call_clock c))
      (List.filter (fun c => String.eqb (call_event c) event) (calls_made frames st)).

End CallsMade.

(** The clock reading of a call of kind [event] is one of [T]. *)
Definition reading_in (event : string) (T : list Q) (c : AlertCall) : Prop :=
  call_event c = event -> In (time_time (call_clock c)) T.

(** The ledger row that the dispatch of a call appends. *)
Definition row_of_call (c : AlertCall) : LogRow :=
  {| row_face_id := call_id c; row_event := call_event c;
     row_time := strftime (call_clock c) |}.

(** The ledger has only grown, by rows of calls among [calls], and the
    stored times of the events of no call among [calls] are as before. *)
Definition alerts_among (calls : list AlertCall) (st st' : State) : Prop :=
  (forall key : string,
     (forall c, In c calls -> call_event c <> key) ->
     last_alert_time st' !! key = last_alert_time st !! key)
  /\ (exists rows,
        logs st' = logs st ++ rows
        /\ Forall (fun r => exists c, In c calls /\ r = row_of_call c) rows).

(** The warnings, the notifications and the log calls have only grown, by
    entries of calls among [calls] and by log calls tagged "Blinking". *)
Definition sink_calls_among (calls : list AlertCall) (st st' : State) : Prop :=
  (exists ws, warnings st' = warnings st ++ ws
              /\ Forall (fun w => exists c, In c calls /\ w = call_event c) ws)
  /\ (exists ns, notify_calls st' = notify_calls st ++ ns
                 /\ Forall (fun n => exists c, In c calls /\ n = call_id c) ns)
  /\ (exists ls, log_calls st' = log_calls st ++ ls
                 /\ Forall (fun l => (exists c, In c calls /\ l = (call_id c, call_event c))
                                     \/ snd l = "Blinking"%string) ls).

(** A digit of lowercase hexadecimal notation. *)
Definition is_hex_digit (a : ascii) : bool :=
  let n := nat_of_ascii a in
  ((48 <=? n) && (n <=? 57) || (97 <=? n) && (n <=? 102))%nat.

(** *** Concrete runs used by the examples of the whole-run properties *)

Module Runs.

Import Scenario.

(** Three failed reads within eight seconds. *)
Definition storm : list Frame := [unread false 100; unread false 103; unread false 108].

(** A stop request that arrives while no face is in view, a frame with a
    face, and a frame that comes after. *)
Definition before_face : list Frame := [seen true []; unread false 100].

Definition with_face : Frame := seen false [face_at 2 0].

Definition afterwards : list Frame := [seen false [face_at 4 4]].

(** A frame without a face and a frame with a drowsy, blinking face. *)
Definition nobody : Frame := seen false [].

Definition sleeper : Frame := seen false [face_at (-2) 0].

(** A frame that is read at time [t] and shows no face; two of them, fifty
    seconds apart. *)
Definition empty_at (t : Q) : Frame :=
  {| stop_pressed := false; is_opened := true; ret := true; is_camera_on := true;
     faces := []; at_camera_off := at_time t; at_update := t;
     at_exceeded := t; at_left := at_time t |}.

Definition long_absence : list Frame := [empty_at 50; empty_at 100].

(** Two landmark sequences that differ in one ordinate. *)
Definition left_shape : Shape := [{| px := 10; py := -20 |}; {| px := 3; py := 4 |}].

Definition right_shape : Shape := [{| px := 10; py := -20 |}; {| px := 3; py := 5 |}].

End Runs.

(* ===================================================================== *)
(** * Properties                                                          *)
(* ===================================================================== *)

(** ** Comparisons of clock readings *)

Lemma Qle_bool_false (x y : Q) : (y < x)%Q -> Qle_bool x y = false.
Proof.
  intros Hlt. destruct (Qle_bool x y) eqn:E; [|reflexivity].
  apply Qle_bool_iff in E. lra.
Qed.

(** ** The throttle and the dispatch bundle *)

Section Throttle.

Context {collab : Collaborators}.

Lemma cooldown_elapsed_spec (st : State) (event : string) (now : Q) :
  cooldown_elapsed st event now = true
  <-> (ALERT_INTERVAL <= now - default 0%Q (last_alert_time st !! event))%Q.
Proof. unfold cooldown_elapsed. apply Qle_bool_iff. Qed.

Lemma log_and_alert_suppressed (face_id event : string) (clk : Clock) (st : State) :
  cooldown_elapsed st event (time_time clk) = false ->
  log_and_alert face_id event clk st = (st, Returned tt).
Proof. intros H. unfold log_and_alert. now rewrite H. Qed.

(** The three ways an admitted dispatch can end. *)
Lemma log_and_alert_admitted (face_id event : string) (clk : Clock) (st : State) :
  cooldown_elapsed st event (time_time clk) = true ->
  log_and_alert face_id event clk st =
    if log_sink_fails face_id event st
    then (logged face_id event st, Raised LogEventError)
    else if notify_sink_fails face_id event st
         then (notified face_id event st, Raised NotifyError)
         else (dispatched face_id event clk st, Returned tt).
Proof.
  intros H. unfold log_and_alert. rewrite H.
  unfold log_sink_fails, notify_sink_fails, notified, dispatched, logged, warned.
  unfold mbind, M_bind. cbn.
  destruct (log_event_raises _ face_id event); [reflexivity|].
  destruct (notify_tutor_raises _ face_id); reflexivity.
Qed.

Lemma log_and_alert_below_interval (face_id event : string) (clk : Clock) (st : State) :
  (time_time clk - default 0%Q (last_alert_time st !! event) < ALERT_INTERVAL)%Q ->
  log_and_alert face_id event clk st = (st, Returned tt).
Proof.
  intros Hlt. apply log_and_alert_suppressed.
  unfold cooldown_elapsed. now apply Qle_bool_false.
Qed.

(** A dispatch whose sinks both return stores [now] under the event and
    touches no other entry of the timestamp map. *)
Lemma log_and_alert_dispatched (face_id event : string) (clk : Clock) (st : State) :
  cooldown_elapsed st event (time_time clk) = true ->
  log_sink_fails face_id event st = false ->
  notify_sink_fails face_id event st = false ->
  log_and_alert face_id event clk st = (dispatched face_id event clk st, Returned tt).
Proof.
  intros Hadm Hlog Hnot. rewrite log_and_alert_admitted by exact Hadm.
  now rewrite Hlog, Hnot.
Qed.

Lemma dispatched_last_same (face_id event : string) (clk : Clock) (st : State) :
  last_alert_time (dispatched face_id event clk st) !! event = Some (time_time clk).
Proof. cbn. apply lookup_insert_eq. Qed.

Lemma dispatched_last_other (face_id event other : string) (clk : Clock) (st : State) :
  other <> event ->
  last_alert_time (dispatched face_id event clk st) !! other = last_alert_time st !! other.
Proof. intros Hne. cbn. now apply lookup_insert_ne. Qed.

Lemma dispatched_logs (face_id event : string) (clk : Clock) (st : State) :
  logs (dispatched face_id event clk st)
  = logs st ++ [{| row_face_id := face_id; row_event := event;
                   row_time := strftime clk |}].
Proof. reflexivity. Qed.

End Throttle.

Section ThrottleClaims.

Context {collab : Collaborators}.

(** C1, amended. The throttle is keyed by the event kind alone and is
    shared by all subjects: once an alert for [(face_a, event)] has been
    admitted and dispatched at time [t], an attempt for [(face_b, event)]
    at a time [t'] with [t' - t < ALERT_INTERVAL] is suppressed, whether or
    not the two subjects differ; the other event kinds are not affected. *)
Theorem C1_throttle_is_keyed_by_event_only
    (face_a face_b event : string) (clk clk' : Clock) (st : State) :
  cooldown_elapsed st event (time_time clk) = true ->
  log_sink_fails face_a event st = false ->
  notify_sink_fails face_a event st = false ->
  (time_time clk' - time_time clk < ALERT_INTERVAL)%Q ->
  let st1 := fst (log_and_alert face_a event clk st) in
  log_and_alert face_b event clk' st1 = (st1, Returned tt)
  /\ (forall (other : string) (now : Q),
        other <> event ->
        cooldown_elapsed st1 other now = cooldown_elapsed st other now).
Proof.
  intros Hadm Hlog Hnot Hlt st1. subst st1.
  rewrite (log_and_alert_dispatched _ _ _ _ Hadm Hlog Hnot). cbn [fst]. split.
  - apply log_and_alert_below_interval.
    rewrite dispatched_last_same. cbn [default]. exact Hlt.
  - intros other now Hne. unfold cooldown_elapsed.
    now rewrite dispatched_last_other.
Qed.

(** C2, amended. For one event kind, let the first call come at a time
    [t1] with [t1 - last >= ALERT_INTERVAL] ([last] being the stored time,
    0 when there is none) and let both sinks return. Then the first call is
    admitted; a second call at [t2] with [t2 - t1 < ALERT_INTERVAL] is
    suppressed, and one with [t2 - t1 >= ALERT_INTERVAL] is admitted. *)
Theorem C2_window_between_two_calls
    (face_id event : string) (c1 c2 : Clock) (st : State) :
  (ALERT_INTERVAL <= time_time c1 - default 0%Q (last_alert_time st !! event))%Q ->
  log_sink_fails face_id event st = false ->
  notify_sink_fails face_id event st = false ->
  let st1 := fst (log_and_alert face_id event c1 st) in
  log_and_alert face_id event c1 st = (dispatched face_id event c1 st, Returned tt)
  /\ ((time_time c2 - time_time c1 < ALERT_INTERVAL)%Q ->
      cooldown_elapsed st1 event (time_time c2) = false
      /\ log_and_alert face_id event c2 st1 = (st1, Returned tt))
  /\ ((ALERT_INTERVAL <= time_time c2 - time_time c1)%Q ->
      cooldown_elapsed st1 event (time_time c2) = true).
Proof.
  intros Hfirst Hlog Hnot st1. subst st1.
  apply cooldown_elapsed_spec in Hfirst.
  rewrite (log_and_alert_dispatched _ _ _ _ Hfirst Hlog Hnot). cbn [fst].
  split; [reflexivity|]. split.
  - intros Hlt. split.
    + unfold cooldown_elapsed. rewrite dispatched_last_same. cbn [default].
      now apply Qle_bool_false.
    + apply log_and_alert_below_interval.
      rewrite dispatched_last_same. cbn [default]. exact Hlt.
  - intros Hge. apply cooldown_elapsed_spec.
    rewrite dispatched_last_same. cbn [default]. exact Hge.
Qed.

(** C3, amended. When the throttle admits, the ledger row is appended and
    the timestamp stored if and only if both sinks return. If the logging
    sink raises, or the notification sink raises after the log call, the
    exception leaves [log_and_alert] before the append: the ledger and the
    timestamp map keep their old value, while the calls already made stay
    recorded. *)
Theorem C3_ledger_append_follows_the_sinks
    (face_id event : string) (clk : Clock) (st : State) :
  cooldown_elapsed st event (time_time clk) = true ->
  let r := log_and_alert face_id event clk st in
  let row := {| row_face_id := face_id; row_event := event;
                row_time := strftime clk |} in
  (log_sink_fails face_id event st = false ->
   notify_sink_fails face_id event st = false ->
   snd r = Returned tt
   /\ logs (fst r) = logs st ++ [row]
   /\ last_alert_time (fst r) = <[event := time_time clk]> (last_alert_time st))
  /\ (log_sink_fails face_id event st = true ->
      snd r = Raised LogEventError
      /\ logs (fst r) = logs st
      /\ last_alert_time (fst r) = last_alert_time st
      /\ warnings (fst r) = warnings st ++ [event]
      /\ notify_calls (fst r) = notify_calls st)
  /\ (log_sink_fails face_id event st = false ->
      notify_sink_fails face_id event st = true ->
      snd r = Raised NotifyError
      /\ logs (fst r) = logs st
      /\ last_alert_time (fst r) = last_alert_time st
      /\ warnings (fst r) = warnings st ++ [event]
      /\ log_calls (fst r) = log_calls st ++ [(face_id, event)]).
Proof.
  intros Hadm r row. subst r row.
  rewrite (log_and_alert_admitted _ _ _ _ Hadm).
  split; [|split].
  - intros Hlog Hnot. rewrite Hlog, Hnot. repeat split.
  - intros Hlog. rewrite Hlog. repeat split.
  - intros Hlog Hnot. rewrite Hlog, Hnot. repeat split.
Qed.

(** C4. When the throttle suppresses an alert, that is when
    [now - last < ALERT_INTERVAL] for the stored (or defaulted) time of the
    event, [log_and_alert] returns the state it was given: the timestamp
    map, the ledger, the warning manager and the records of the calls made
    to both sinks are exactly as before. *)
Theorem C4_suppressed_call_changes_nothing
    (face_id event : string) (clk : Clock) (st : State) :
  (time_time clk - default 0%Q (last_alert_time st !! event) < ALERT_INTERVAL)%Q ->
  log_and_alert face_id event clk st = (st, Returned tt).
Proof. apply log_and_alert_below_interval. Qed.

(** C6, amended. An event without a stored timestamp is treated as last
    alerted at time 0: the first call is admitted exactly when
    [now >= ALERT_INTERVAL], and below that it is suppressed without any
    effect. *)
Theorem C6_fresh_key_counts_from_zero
    (face_id event : string) (clk : Clock) (st : State) :
  last_alert_time st !! event = None ->
  (cooldown_elapsed st event (time_time clk) = true
     <-> (ALERT_INTERVAL <= time_time clk)%Q)
  /\ ((time_time clk < ALERT_INTERVAL)%Q ->
      log_and_alert face_id event clk st = (st, Returned tt)).
Proof.
  intros Hnone. split.
  - rewrite cooldown_elapsed_spec, Hnone. cbn [default]. split; intros H; lra.
  - intros Hlt. apply log_and_alert_below_interval.
    rewrite Hnone. cbn [default]. lra.
Qed.

End ThrottleClaims.

(** *** The throttle claims on concrete calls *)

Import Scenario.

(** C1 as stated fails: subject A is admitted for "Talking" at time 100 and
    subject B is suppressed for the same event kind five seconds later. *)
Lemma C1_counterexample :
  let st1 := fst (log_and_alert (collab := reliable) "A" "Talking" (at_time 100) fresh) in
  "A" <> "B"
  /\ cooldown_elapsed fresh "Talking" 100 = true
  /\ logs st1 = [{| row_face_id := "A"; row_event := "Talking";
                    row_time := strftime (at_time 100) |}]
  /\ (105 - 100 < ALERT_INTERVAL)%Q
  /\ cooldown_elapsed st1 "Talking" 105 = false
  /\ log_and_alert (collab := reliable) "B" "Talking" (at_time 105) st1
     = (st1, Returned tt).
Proof. vm_compute. repeat split; discriminate. Qed.

Lemma C1_witness :
  let st1 := fst (log_and_alert (collab := reliable) "A" "Talking" (at_time 100) fresh) in
  log_and_alert (collab := reliable) "B" "Talking" (at_time 105) st1 = (st1, Returned tt)
  /\ (forall (other : string) (now : Q),
        other <> "Talking" ->
        cooldown_elapsed st1 other now = cooldown_elapsed fresh other now).
Proof.
  apply (@C1_throttle_is_keyed_by_event_only reliable
           "A" "B" "Talking" (at_time 100) (at_time 105) fresh);
    vm_compute; reflexivity.
Defined.

(** C2 as stated fails on a fresh map: with [t1 = 5] and [t2 = 12] the two
    calls are less than [ALERT_INTERVAL] apart, yet the first is suppressed
    and the second admitted. *)
Lemma C2_counterexample :
  let r1 := log_and_alert (collab := reliable) "A" "Talking" (at_time 5) fresh in
  let r2 := log_and_alert (collab := reliable) "A" "Talking" (at_time 12) (fst r1) in
  last_alert_time fresh !! "Talking" = None
  /\ (5 < 12)%Q /\ (12 - 5 < ALERT_INTERVAL)%Q
  /\ cooldown_elapsed fresh "Talking" 5 = false
  /\ r1 = (fresh, Returned tt)
  /\ cooldown_elapsed (fst r1) "Talking" 12 = true
  /\ logs (fst r2) = [{| row_face_id := "A"; row_event := "Talking";
                         row_time := strftime (at_time 12) |}].
Proof. vm_compute. repeat split. Qed.

Lemma C2_witness :
  let st1 := fst (log_and_alert (collab := reliable) "A" "Talking" (at_time 100) fresh) in
  log_and_alert (collab := reliable) "A" "Talking" (at_time 100) fresh
  = (dispatched "A" "Talking" (at_time 100) fresh, Returned tt)
  /\ ((time_time (at_time 105) - time_time (at_time 100) < ALERT_INTERVAL)%Q ->
      cooldown_elapsed st1 "Talking" (time_time (at_time 105)) = false
      /\ log_and_alert (collab := reliable) "A" "Talking" (at_time 105) st1
         = (st1, Returned tt))
  /\ ((ALERT_INTERVAL <= time_time (at_time 105) - time_time (at_time 100))%Q ->
      cooldown_elapsed st1 "Talking" (time_time (at_time 105)) = true).
Proof.
  apply (@C2_window_between_two_calls reliable
           "A" "Talking" (at_time 100) (at_time 105) fresh).
  - vm_compute. discriminate.
  - reflexivity.
  - reflexivity.
Defined.

(** C3 as stated fails: the throttle admits, the notification sink raises,
    and no row reaches the ledger (nor is the timestamp stored). *)
Lemma C3_counterexample :
  let r := log_and_alert (collab := notify_down) "A" "Talking" (at_time 100) fresh in
  cooldown_elapsed fresh "Talking" 100 = true
  /\ snd r = Raised NotifyError
  /\ logs (fst r) = []
  /\ last_alert_time (fst r) !! "Talking" = None
  /\ log_calls (fst r) = [("A", "Talking")]
  /\ notify_calls (fst r) = ["A"].
Proof. vm_compute. repeat split. Qed.

Lemma C3_witness :
  cooldown_elapsed fresh "Talking" (time_time (at_time 100)) = true
  /\ snd (log_and_alert (collab := reliable) "A" "Talking" (at_time 100) fresh) = Returned tt
  /\ logs (fst (log_and_alert (collab := reliable) "A" "Talking" (at_time 100) fresh))
     = logs fresh ++ [{| row_face_id := "A"; row_event := "Talking";
                         row_time := strftime (at_time 100) |}].
Proof.
  split; [reflexivity|].
  destruct (@C3_ledger_append_follows_the_sinks reliable
              "A" "Talking" (at_time 100) fresh eq_refl) as [Hok _].
  destruct (Hok eq_refl eq_refl) as (Hret & Hlogs & _).
  split; [exact Hret | exact Hlogs].
Defined.

Lemma C4_witness :
  (time_time (at_time 3) - default 0%Q (last_alert_time fresh !! "Talking")
   < ALERT_INTERVAL)%Q
  /\ log_and_alert (collab := reliable) "A" "Talking" (at_time 3) fresh
     = (fresh, Returned tt).
Proof.
  assert (H : (time_time (at_time 3) - default 0%Q (last_alert_time fresh !! "Talking")
               < ALERT_INTERVAL)%Q) by (vm_compute; reflexivity).
  split; [exact H|].
  exact (@C4_suppressed_call_changes_nothing reliable "A" "Talking" (at_time 3) fresh H).
Defined.

(** C6 as stated fails: a fresh key is not admitted at [now = 5]. *)
Lemma C6_counterexample :
  last_alert_time fresh !! "Talking" = None
  /\ cooldown_elapsed fresh "Talking" 5 = false
  /\ log_and_alert (collab := reliable) "A" "Talking" (at_time 5) fresh
     = (fresh, Returned tt).
Proof. vm_compute. repeat split. Qed.

Lemma C6_witness :
  (cooldown_elapsed fresh "Talking" (time_time (at_time 12)) = true
     <-> (ALERT_INTERVAL <= time_time (at_time 12))%Q)
  /\ ((time_time (at_time 12) < ALERT_INTERVAL)%Q ->
      log_and_alert (collab := reliable) "A" "Talking" (at_time 12) fresh
      = (fresh, Returned tt)).
Proof.
  apply (@C6_fresh_key_counts_from_zero reliable "A" "Talking" (at_time 12) fresh).
  reflexivity.
Defined.

(** ** The identity resolver *)

Section Resolver.

Lemma low_byte_of_low_half (n : Z) : (n mod 65536) mod 256 = n mod 256.
Proof.
  apply Z.mod_mod_divide. exists 256. reflexivity.
Qed.

Lemma to_bytes2_in_range (n : Z) : in_int16 n = true -> to_bytes2 n = Returned (be16 n).
Proof.
  unfold to_bytes2, in_int16, be16. intros ->. cbv zeta.
  now rewrite low_byte_of_low_half.
Qed.

Lemma to_bytes2_overflow (n : Z) : in_int16 n = false -> to_bytes2 n = Raised OverflowError.
Proof. unfold to_bytes2, in_int16. intros ->. reflexivity. Qed.

Lemma extend_all_in_range (flat data : list Z) :
  forallb in_int16 flat = true ->
  extend_all flat data = Returned (data ++ flat_map be16 flat).
Proof.
  revert data. induction flat as [|n flat IH]; intros data Hall; cbn.
  - now rewrite app_nil_r.
  - cbn in Hall. apply andb_prop in Hall as [Hn Hrest].
    rewrite (to_bytes2_in_range n Hn), (IH _ Hrest).
    now rewrite <- app_assoc.
Qed.

Lemma extend_all_overflow (flat data : list Z) :
  forallb in_int16 flat = false ->
  extend_all flat data = Raised OverflowError.
Proof.
  revert data. induction flat as [|n flat IH]; intros data Hall; cbn in *.
  - discriminate.
  - destruct (in_int16 n) eqn:Hn.
    + rewrite (to_bytes2_in_range n Hn). now apply IH.
    + now rewrite (to_bytes2_overflow n Hn).
Qed.

Lemma flat_of_in_range (shape : Shape) : forallb in_int16 (flat_of shape) = well_formed shape.
Proof.
  unfold flat_of, well_formed. induction shape as [|p shape IH]; cbn; [reflexivity|].
  rewrite IH. now rewrite andb_assoc.
Qed.

Lemma flat_of_bytes (shape : Shape) : flat_map be16 (flat_of shape) = serialize shape.
Proof.
  unfold flat_of, serialize. induction shape as [|p shape IH]; cbn; [reflexivity|].
  now rewrite IH.
Qed.

(** [get_face_id] in closed form: no test of the number of landmarks, one
    possible exception. *)
Lemma get_face_id_eq (shape : Shape) :
  get_face_id shape =
    if well_formed shape then Returned (MD5.hexdigest (serialize shape))
    else Raised OverflowError.
Proof.
  unfold get_face_id. fold (flat_of shape).
  destruct (well_formed shape) eqn:Hwf; rewrite <- flat_of_in_range in Hwf.
  - rewrite (extend_all_in_range _ _ Hwf). cbn [app]. now rewrite flat_of_bytes.
  - now rewrite (extend_all_overflow _ _ Hwf).
Qed.

(** *** The digest has 128 bits *)

Lemma le_bytes_length (n : nat) (x : Z) : length (MD5.le_bytes n x) = n.
Proof. revert x. induction n as [|n IH]; intros x; cbn; [reflexivity|]. now rewrite IH. Qed.

Lemma le_bytes_are_bytes (n : nat) (x : Z) : forallb is_byte (MD5.le_bytes n x) = true.
Proof.
  revert x. induction n as [|n IH]; intros x; cbn; [reflexivity|].
  rewrite IH, andb_true_r. unfold is_byte.
  pose proof (Z.mod_pos_bound x 256 ltac:(lia)) as [Hlo Hhi].
  apply andb_true_intro. split; [now apply Z.leb_le | now apply Z.ltb_lt].
Qed.

Lemma digest_length (msg : list Z) : length (MD5.digest msg) = 16%nat.
Proof.
  unfold MD5.digest.
  destruct (fold_left MD5.compress _ MD5.init) as [[[a b] c] d].
  rewrite !length_app, !le_bytes_length. reflexivity.
Qed.

Lemma digest_bytes (msg : list Z) : forallb is_byte (MD5.digest msg) = true.
Proof.
  unfold MD5.digest.
  destruct (fold_left MD5.compress _ MD5.init) as [[[a b] c] d].
  rewrite !forallb_app, !le_bytes_are_bytes. reflexivity.
Qed.

Lemma hex_length (bs : list Z) : String.length (MD5.hex bs) = (2 * length bs)%nat.
Proof. induction bs as [|b bs IH]; cbn [MD5.hex String.length length]; [reflexivity|]. rewrite IH. lia. Qed.

Lemma hexdigest_length (msg : list Z) : String.length (MD5.hexdigest msg) = 32%nat.
Proof. unfold MD5.hexdigest. now rewrite hex_length, digest_length. Qed.

(** *** The serialization is two's complement, big-endian, in order *)

Lemma be16_decodes (n : Z) :
  in_int16 n = true ->
  int16_of_be ((n mod 65536) / 256) (n mod 256) = n.
Proof.
  unfold in_int16, int16_of_be. intros H.
  apply andb_prop in H as [Hlo Hhi]. apply Z.leb_le in Hlo, Hhi.
  assert (Hu : 256 * (n mod 65536 / 256) + n mod 256 = n mod 65536).
  { rewrite <- (low_byte_of_low_half n). symmetry. apply Z.div_mod. lia. }
  rewrite Hu. clear Hu.
  destruct (Z.ltb_spec (n mod 65536) 32768) as [Hsmall|Hbig];
    Z.div_mod_to_equations; lia.
Qed.

Lemma be16_are_bytes (n : Z) : forallb is_byte (be16 n) = true.
Proof.
  unfold be16, is_byte. cbn [forallb].
  pose proof (Z.mod_pos_bound n 65536 ltac:(lia)).
  pose proof (Z.mod_pos_bound n 256 ltac:(lia)).
  assert (0 <= n mod 65536 / 256 < 256)
    by (split; [apply Z.div_pos; lia | apply Z.div_lt_upper_bound; lia]).
  repeat (apply andb_true_intro; split); try reflexivity;
    (apply Z.leb_le || apply Z.ltb_lt); lia.
Qed.

Lemma serialize_length (shape : Shape) : length (serialize shape) = (4 * length shape)%nat.
Proof.
  induction shape as [|p shape IH]; [reflexivity|].
  change (serialize (p :: shape)) with ((be16 (px p) ++ be16 (py p)) ++ serialize shape).
  rewrite !length_app, IH. cbn [be16 length]. lia.
Qed.

Lemma serialize_bytes (shape : Shape) : forallb is_byte (serialize shape) = true.
Proof.
  induction shape as [|p shape IH]; [reflexivity|].
  change (serialize (p :: shape)) with ((be16 (px p) ++ be16 (py p)) ++ serialize shape).
  now rewrite !forallb_app, !be16_are_bytes, IH.
Qed.

Lemma deserialize_serialize (shape : Shape) :
  well_formed shape = true ->
  deserialize (serialize shape) (length shape) = shape.
Proof.
  induction shape as [|[x y] shape IH]; intros Hwf.
  - reflexivity.
  - unfold well_formed in Hwf. cbn [forallb px py] in Hwf.
    apply andb_prop in Hwf as [Hp Hrest]. apply andb_prop in Hp as [Hx Hy].
    change (serialize ({| px := x; py := y |} :: shape))
      with ((x mod 65536) / 256 :: x mod 256 :: (y mod 65536) / 256 :: y mod 256
            :: serialize shape).
    cbn [length deserialize].
    rewrite (be16_decodes x Hx), (be16_decodes y Hy), (IH Hrest). reflexivity.
Qed.

End Resolver.

Section ResolverClaims.

Context {collab : Collaborators}.

(** C8, amended. A landmark sequence that is empty or shorter than the
    landmark count is not rejected: [get_face_id] has no test of the
    length and returns the digest of the serialization of the landmarks
    that are present, and the verdicts of the face are dispatched under
    that identifier. The only error of the resolver is [OverflowError],
    raised for a coordinate outside the signed 16-bit range whatever the
    length, and it is not caught. *)
Theorem C8_short_landmarks_are_hashed (f : FaceObs) (st : State) :
  (length (shape f) < LANDMARK_COUNT)%nat ->
  get_face_id (shape f)
  = (if well_formed (shape f)
     then Returned (MD5.hexdigest (serialize (shape f)))
     else Raised OverflowError)
  /\ (well_formed (shape f) = true ->
      process_face f st
      = dispatch_verdicts (MD5.hexdigest (serialize (shape f))) f st)
  /\ (well_formed (shape f) = false ->
      process_face f st = (st, Raised OverflowError)).
Proof.
  intros _. split; [apply get_face_id_eq|].
  unfold process_face, mbind, M_bind, lift. rewrite get_face_id_eq.
  split; intros ->; reflexivity.
Qed.

(** C9, amended. [get_face_id] returns exactly on the landmark sequences
    whose coordinates all fit the signed 16-bit range, of any length, and
    raises [OverflowError] on every other one. Where it returns, the
    session state is handed on untouched to the dispatch of the verdicts,
    and the identifier is the hexadecimal text of the MD5 digest (128 bits:
    16 bytes, 32 digits) of the buffer that holds, landmark after landmark
    and x before y, each coordinate as two bytes, most significant first,
    in two's complement: 4 bytes per landmark, from which the landmarks are
    read back; sequences with the same buffer get the same identifier. The
    digest is the one of RFC 1321: it gives the answers of the test suite
    of that document, and on a face of 68 landmarks the identifier that
    [hashlib] gives. *)
Theorem C9_get_face_id_total_and_deterministic (landmarks : Shape) :
  (well_formed landmarks = true ->
   get_face_id landmarks = Returned (MD5.hexdigest (serialize landmarks))
   /\ (forall (f : FaceObs) (st : State),
         shape f = landmarks ->
         process_face f st = dispatch_verdicts (MD5.hexdigest (serialize landmarks)) f st)
   /\ length (MD5.digest (serialize landmarks)) = 16%nat
   /\ forallb is_byte (MD5.digest (serialize landmarks)) = true
   /\ String.length (MD5.hexdigest (serialize landmarks)) = 32%nat
   /\ length (serialize landmarks) = (4 * length landmarks)%nat
   /\ forallb is_byte (serialize landmarks) = true
   /\ deserialize (serialize landmarks) (length landmarks) = landmarks
   /\ (forall shape' : Shape,
         well_formed shape' = true ->
         serialize shape' = serialize landmarks ->
         get_face_id shape' = get_face_id landmarks))
  /\ (well_formed landmarks = false -> get_face_id landmarks = Raised OverflowError)
  /\ passes md5_test_suite = true
  /\ get_face_id full_shape = Returned "ec051865cf7efbc1c936fce5f1a392c3"%string.
Proof.
  split; [|split; [|split]].
  - intros Hwf.
    assert (Hid : get_face_id landmarks = Returned (MD5.hexdigest (serialize landmarks)))
      by (now rewrite get_face_id_eq, Hwf).
    split; [exact Hid|].
    split; [intros f st Hf; unfold process_face, mbind, M_bind, lift;
            now rewrite Hf, Hid|].
    split; [apply digest_length|].
    split; [apply digest_bytes|].
    split; [apply hexdigest_length|].
    split; [apply serialize_length|].
    split; [apply serialize_bytes|].
    split; [now apply deserialize_serialize|].
    intros shape' Hwf' Heq. now rewrite !get_face_id_eq, Hwf, Hwf', Heq.
  - intros Hwf. now rewrite get_face_id_eq, Hwf.
  - vm_compute. reflexivity.
  - vm_compute. reflexivity.
Qed.

End ResolverClaims.

(** C8 as stated fails: the empty sequence and a sequence of two landmarks
    are hashed, and the face with two landmarks is not skipped: its blink is
    logged under the identifier so obtained. *)
Lemma C8_counterexample :
  (length (@nil Point) < LANDMARK_COUNT)%nat
  /\ get_face_id [] = Returned "d41d8cd98f00b204e9800998ecf8427e"%string
  /\ (length (shape (face_at 2 0)) < LANDMARK_COUNT)%nat
  /\ get_face_id (shape (face_at 2 0)) = Returned "8db3ccab04696ed916af9276463f901e"%string
  /\ log_calls (fst (process_face (collab := reliable) (face_at 2 0) fresh))
     = [("8db3ccab04696ed916af9276463f901e", "Blinking")]%string.
Proof. vm_compute. repeat split; lia. Qed.

Lemma C8_witness :
  get_face_id (shape (face_at 2 0))
  = (if well_formed (shape (face_at 2 0))
     then Returned (MD5.hexdigest (serialize (shape (face_at 2 0))))
     else Raised OverflowError)
  /\ (well_formed (shape (face_at 2 0)) = true ->
      process_face (collab := reliable) (face_at 2 0) fresh
      = dispatch_verdicts (collab := reliable)
          (MD5.hexdigest (serialize (shape (face_at 2 0)))) (face_at 2 0) fresh)
  /\ (well_formed (shape (face_at 2 0)) = false ->
      process_face (collab := reliable) (face_at 2 0) fresh = (fresh, Raised OverflowError)).
Proof.
  apply (@C8_short_landmarks_are_hashed reliable (face_at 2 0) fresh).
  vm_compute. lia.
Defined.

(** C9 as stated fails: a sequence of the full landmark count on which one
    coordinate does not fit 16 bits is not given an identifier; the
    resolver raises. *)
Lemma C9_counterexample :
  length wide_shape = LANDMARK_COUNT
  /\ get_face_id wide_shape = Raised OverflowError.
Proof. vm_compute. split; reflexivity. Qed.

Lemma C9_witness :
  well_formed two_landmarks = true
  /\ get_face_id two_landmarks = Returned (MD5.hexdigest (serialize two_landmarks))
  /\ String.length (MD5.hexdigest (serialize two_landmarks)) = 32%nat
  /\ deserialize (serialize two_landmarks) (length two_landmarks) = two_landmarks
  /\ well_formed wide_shape = false
  /\ get_face_id wide_shape = Raised OverflowError.
Proof.
  destruct (@C9_get_face_id_total_and_deterministic reliable two_landmarks)
    as (Hret & _).
  destruct (Hret eq_refl) as (Hid & _ & _ & _ & Hlen & _ & _ & Hback & _).
  destruct (@C9_get_face_id_total_and_deterministic reliable wide_shape)
    as (_ & Hraise & _).
  split; [reflexivity|]. split; [exact Hid|]. split; [exact Hlen|].
  split; [exact Hback|]. split; [reflexivity|]. exact (Hraise eq_refl).
Defined.

Example get_face_id_two_landmarks :
  serialize two_landmarks = [0; 1; 0; 2; 255; 253; 1; 44]
  /\ get_face_id two_landmarks = Returned "559a7fe4ecbc1292aabb999576fb19ef"%string.
Proof. vm_compute. repeat split. Qed.

(** ** Reasoning about computations *)

Section Computations.

Lemma bind_run {A B} (m : M A) (k : A -> M B) (st : State) :
  (m ≫= k) st
  = match m st with
    | (st1, Returned a) => k a st1
    | (st1, Raised e) => (st1, Raised e)
    end.
Proof. reflexivity. Qed.

(** *** Relations that hold whatever the outcome *)

Section Preservation.

Context (R : State -> State -> Prop) {R_pre : PreOrder R}.

Lemma preserves_ret {A} (a : A) : preserves R (mret a : M A).
Proof. intros st. cbn. reflexivity. Qed.

Lemma preserves_lift {A} (o : Outcome A) : preserves R (lift o).
Proof. intros st. cbn. reflexivity. Qed.

Lemma preserves_bind {A B} (m : M A) (k : A -> M B) :
  preserves R m -> (forall a, preserves R (k a)) -> preserves R (m ≫= k).
Proof.
  intros Hm Hk st. rewrite bind_run. specialize (Hm st).
  destruct (m st) as [st1 [a|e]]; cbn [fst] in *.
  - transitivity st1; [exact Hm | apply Hk].
  - exact Hm.
Qed.

Lemma preserves_when (b : bool) (m : M unit) :
  preserves R m -> preserves R (when b m).
Proof. destruct b; [trivial | intros _; apply preserves_ret]. Qed.

Lemma preserves_for_each {A} (body : A -> M unit) (l : list A) :
  (forall x, In x l -> preserves R (body x)) -> preserves R (for_each body l).
Proof.
  induction l as [|x l IH]; intros Hbody; cbn [for_each].
  - apply preserves_ret.
  - apply preserves_bind; [apply Hbody; now left|].
    intros _. apply IH. intros y Hy. apply Hbody. now right.
Qed.

End Preservation.

(** *** Properties of the state a computation returns in *)

Lemma wlp_ret {A} (a : A) (Q : A -> State -> Prop) (st : State) :
  Q a st -> wlp (mret a : M A) Q st.
Proof. trivial. Qed.

Lemma wlp_bind {A B} (m : M A) (k : A -> M B) (Q : B -> State -> Prop) (st : State) :
  wlp m (fun a st1 => wlp (k a) Q st1) st -> wlp (m ≫= k) Q st.
Proof.
  unfold wlp. rewrite bind_run. destruct (m st) as [st1 [a|e]]; trivial.
Qed.

Lemma wlp_mono {A} (m : M A) (Q Q' : A -> State -> Prop) (st : State) :
  (forall a st', Q a st' -> Q' a st') -> wlp m Q st -> wlp m Q' st.
Proof.
  unfold wlp. intros HQ. destruct (m st) as [st1 [a|e]]; [apply HQ | trivial].
Qed.

Lemma wlp_of_preserves {A} (R : State -> State -> Prop) (m : M A) (st : State) :
  preserves R m -> wlp m (fun _ st' => R st st') st.
Proof.
  intros Hm. unfold wlp. specialize (Hm st).
  destruct (m st) as [st1 [a|e]]; [exact Hm | trivial].
Qed.

Lemma wlp_run {A} (m : M A) (Q : A -> State -> Prop) (st st' : State) (a : A) :
  wlp m Q st -> m st = (st', Returned a) -> Q a st'.
Proof. unfold wlp. intros H Hrun. now rewrite Hrun in H. Qed.

(** *** Computations that always return *)

Lemma total_ret {A} (a : A) : total (mret a : M A).
Proof. intros st. reflexivity. Qed.

Lemma total_bind {A B} (m : M A) (k : A -> M B) :
  total m -> (forall a, total (k a)) -> total (m ≫= k).
Proof.
  intros Hm Hk st. rewrite bind_run. specialize (Hm st).
  destruct (m st) as [st1 [a|e]]; [apply Hk | discriminate Hm].
Qed.

Lemma total_when (b : bool) (m : M unit) : total m -> total (when b m).
Proof. destruct b; [trivial | intros _; apply total_ret]. Qed.

Lemma total_for_each {A} (body : A -> M unit) (l : list A) :
  (forall x, In x l -> total (body x)) -> total (for_each body l).
Proof.
  induction l as [|x l IH]; intros Hbody; cbn [for_each].
  - apply total_ret.
  - apply total_bind; [apply Hbody; now left|].
    intros _. apply IH. intros y Hy. apply Hbody. now right.
Qed.

Lemma total_run {A} (m : M A) (st : State) :
  total m -> exists a st', m st = (st', Returned a).
Proof.
  intros Hm. specialize (Hm st). destruct (m st) as [st1 [a|e]]; [|discriminate Hm].
  now exists a, st1.
Qed.

End Computations.

(** ** The relations are preorders *)

#[local] Instance control_same_pre : PreOrder control_same.
Proof.
  split.
  - intros st. repeat split.
  - intros s1 s2 s3 (H1 & H2 & H3) (H4 & H5 & H6). repeat split; congruence.
Qed.

#[local] Instance released_same_pre : PreOrder released_same.
Proof. split; [intros st; reflexivity | intros s1 s2 s3; unfold released_same; congruence]. Qed.

#[local] Instance alerts_same_pre : PreOrder alerts_same.
Proof.
  split.
  - intros st. repeat split.
  - intros s1 s2 s3 (H1 & H2 & H3 & H4) (H5 & H6 & H7 & H8). repeat split; congruence.
Qed.

#[local] Instance blink_quiet_pre : PreOrder blink_quiet.
Proof.
  split.
  - intros st. repeat split.
  - intros s1 s2 s3 (H1 & H2 & H3) (H4 & H5 & H6). repeat split; congruence.
Qed.

#[local] Instance only_camera_alerts_pre : PreOrder only_camera_alerts.
Proof.
  split.
  - intros st. repeat split. exists []. split; [now rewrite app_nil_r | constructor].
  - intros s1 s2 s3 (Ha & Hk & rows & Hrows & Hall) (Ha' & Hk' & rows' & Hrows' & Hall').
    split; [congruence|]. split.
    + intros key Hkey. rewrite (Hk' key Hkey). now apply Hk.
    + exists (rows ++ rows'). split.
      * rewrite Hrows', Hrows. now rewrite app_assoc.
      * apply Forall_app. now split.
Qed.

#[local] Instance stop_same_pre : PreOrder stop_same.
Proof. split; [intros st; reflexivity | intros s1 s2 s3; unfold stop_same; congruence]. Qed.

Lemma blink_calls_grow_refl (st : State) : blink_calls_grow [] st st.
Proof. unfold blink_calls_grow. now rewrite app_nil_r. Qed.

Lemma blink_calls_grow_trans (l1 l2 : list (string * string)) (s1 s2 s3 : State) :
  blink_calls_grow l1 s1 s2 -> blink_calls_grow l2 s2 s3 ->
  blink_calls_grow (l1 ++ l2) s1 s3.
Proof.
  unfold blink_calls_grow. intros H1 H2. rewrite H2, H1. now rewrite app_assoc.
Qed.

#[local] Instance blink_calls_still_pre : PreOrder (blink_calls_grow []).
Proof.
split.
- intros st. apply blink_calls_grow_refl.
- intros s1 s2 s3 H1 H2. exact (blink_calls_grow_trans [] [] s1 s2 s3 H1 H2).
Qed.

(** Unfolds the relations on a state given field by field. *)
Ltac by_fields :=
  unfold control_same, released_same, stop_same, alerts_same, blink_quiet, blink_calls_grow,
    blink_rows, blink_warnings, blink_calls;
  cbn; repeat split.

(** ** Effects of the parts of the loop *)

Section Effects.

Context {collab : Collaborators}.

Lemma log_and_alert_cases (face_id event : string) (clk : Clock) (st : State) :
  fst (log_and_alert face_id event clk st) = st
  \/ fst (log_and_alert face_id event clk st) = logged face_id event st
  \/ fst (log_and_alert face_id event clk st) = notified face_id event st
  \/ fst (log_and_alert face_id event clk st) = dispatched face_id event clk st.
Proof.
  destruct (cooldown_elapsed st event (time_time clk)) eqn:Hadm.
  - rewrite (log_and_alert_admitted _ _ _ _ Hadm).
    destruct (log_sink_fails face_id event st); [right; left; reflexivity|].
    destruct (notify_sink_fails face_id event st); [right; right; left; reflexivity|].
    right; right; right; reflexivity.
  - rewrite (log_and_alert_suppressed _ _ _ _ Hadm). left; reflexivity.
Qed.

Lemma preserves_log_and_alert (R : State -> State -> Prop) {R_pre : PreOrder R}
    (face_id event : string) (clk : Clock) :
  (forall st, R st (logged face_id event st)) ->
  (forall st, R st (notified face_id event st)) ->
  (forall st, R st (dispatched face_id event clk st)) ->
  preserves R (log_and_alert face_id event clk).
Proof.
  intros Hlog Hnot Hdis st.
  destruct (log_and_alert_cases face_id event clk st) as [H|[H|[H|H]]]; rewrite H.
  - reflexivity.
  - apply Hlog.
  - apply Hnot.
  - apply Hdis.
Qed.

Lemma log_and_alert_returns (face_id event : string) (clk : Clock) (st : State) :
  sinks_reliable -> snd (log_and_alert face_id event clk st) = Returned tt.
Proof.
  intros [Hlog Hnot].
  destruct (cooldown_elapsed st event (time_time clk)) eqn:Hadm.
  - rewrite (log_and_alert_admitted _ _ _ _ Hadm).
    unfold log_sink_fails, notify_sink_fails. now rewrite Hlog, Hnot.
  - now rewrite (log_and_alert_suppressed _ _ _ _ Hadm).
Qed.

(** *** Lifting a relation from the primitives to the loop *)

Section Lifting.

Context (R : State -> State -> Prop) {R_pre : PreOrder R}.

Lemma dispatch_verdicts_preserves (face_id : string) (f : FaceObs) :
  (forall event clk, In event alertable_events ->
                     preserves R (log_and_alert face_id event clk)) ->
  preserves R (log_event face_id "Blinking") ->
  preserves R (dispatch_verdicts face_id f).
Proof.
  intros Halert Hblink. unfold dispatch_verdicts.
  repeat (apply (preserves_bind R); [|intros _]); apply (preserves_when R);
    try exact Hblink; apply Halert; cbn; tauto.
Qed.

Lemma faces_preserve (fs : list FaceObs) :
  (forall face_id event clk, In event alertable_events ->
                             preserves R (log_and_alert face_id event clk)) ->
  (forall face_id, preserves R (log_event face_id "Blinking")) ->
  preserves R (for_each process_face fs).
Proof.
  intros Halert Hblink. apply (preserves_for_each R). intros f _.
  unfold process_face. apply (preserves_bind R).
  - apply (preserves_lift R).
  - intros face_id. apply dispatch_verdicts_preserves; [apply Halert | apply Hblink].
Qed.

Lemma exceeded_limit_preserves (now : Q) : preserves R (exceeded_limit now).
Proof. intros st. cbn. reflexivity. Qed.

Lemma iteration_preserves (f : Frame) :
  preserves R (log_and_alert "unknown" "Camera turned off" (at_camera_off f)) ->
  preserves R (log_and_alert "unknown" "User left screen" (at_left f)) ->
  (forall absent now, preserves R (update_absence absent now)) ->
  preserves R poll_stop ->
  preserves R (for_each process_face (faces f)) ->
  preserves R (iteration f).
Proof.
  intros Hoff Hleft Habs Hpoll Hfaces. unfold iteration.
  destruct (negb (ret f) || negb (is_camera_on f)).
  - apply (preserves_bind R); [exact Hoff | intros _; apply (preserves_ret R)].
  - destruct (length (faces f) =? 0)%nat.
    + apply (preserves_bind R); [apply Habs | intros _].
      apply (preserves_bind R); [apply exceeded_limit_preserves | intros exceeded].
      apply (preserves_bind R); [|intros _; apply (preserves_ret R)].
      apply (preserves_when R). exact Hleft.
    + apply (preserves_bind R); [apply Habs | intros _].
      apply (preserves_bind R); [exact Hfaces | intros _].
      apply (preserves_bind R); [exact Hpoll | intros stop; apply (preserves_ret R)].
Qed.

Lemma frame_loop_preserves (frames : list Frame) :
  (forall f, In f frames -> preserves R (observe_stop f)) ->
  (forall f, In f frames -> preserves R (iteration f)) ->
  preserves R (frame_loop frames).
Proof.
  induction frames as [|f frames IH]; intros Hobs Hiter; cbn [frame_loop].
  - apply (preserves_ret R).
  - apply (preserves_bind R); [apply Hobs; now left | intros _].
    destruct (negb (is_opened f)); [apply (preserves_ret R)|].
    apply (preserves_bind R); [apply Hiter; now left | intros flow].
    destruct flow; [|apply (preserves_ret R)].
    apply IH; intros g Hg; [apply Hobs | apply Hiter]; now right.
Qed.

End Lifting.

End Effects.

(** ** What each relation needs from the primitives *)

Section Relations.

Context {collab : Collaborators}.

(** *** The capture handle and the stop entry *)

Lemma frame_loop_released (frames : list Frame) :
  preserves released_same (frame_loop frames).
Proof.
  apply (frame_loop_preserves released_same).
  - intros f _ st. reflexivity.
  - intros f _. apply (iteration_preserves released_same).
    + apply (preserves_log_and_alert released_same); intros st; reflexivity.
    + apply (preserves_log_and_alert released_same); intros st; reflexivity.
    + intros absent now st. reflexivity.
    + intros st. reflexivity.
    + apply (faces_preserve released_same).
      * intros face_id event clk _.
        apply (preserves_log_and_alert released_same); intros st; reflexivity.
      * intros face_id st. reflexivity.
Qed.

Lemma faces_control (fs : list FaceObs) :
  preserves control_same (for_each process_face fs).
Proof.
  apply (faces_preserve control_same).
  - intros face_id event clk _.
    apply (preserves_log_and_alert control_same); intros st; by_fields.
  - intros face_id st. by_fields.
Qed.

(** *** Nothing tagged "Blinking" outside the log calls *)

Lemma log_and_alert_blink_quiet (face_id event : string) (clk : Clock) :
  String.eqb event "Blinking" = false ->
  preserves blink_quiet (log_and_alert face_id event clk).
Proof.
  intros Hne. assert (Hneq : event <> "Blinking"%string) by now apply String.eqb_neq.
  apply (preserves_log_and_alert blink_quiet); intros st;
    unfold blink_quiet, blink_rows, blink_warnings; cbn;
    rewrite ?List.filter_app; cbn; unfold is_blink_row; cbn; rewrite ?Hne, ?app_nil_r;
    repeat split.
  now apply lookup_insert_ne.
Qed.

Lemma frame_loop_blink_quiet (frames : list Frame) :
  preserves blink_quiet (frame_loop frames).
Proof.
  apply (frame_loop_preserves blink_quiet).
  - intros f _ st. by_fields.
  - intros f _. apply (iteration_preserves blink_quiet).
    + now apply log_and_alert_blink_quiet.
    + now apply log_and_alert_blink_quiet.
    + intros absent now st. by_fields.
    + intros st. by_fields.
    + apply (faces_preserve blink_quiet).
      * intros face_id event clk Hin. apply log_and_alert_blink_quiet.
        cbn in Hin. destruct Hin as [<-|[<-|[<-|[<-|[]]]]]; reflexivity.
      * intros face_id st. by_fields.
Qed.

(** *** Camera-off frames *)

Lemma camera_alert_only (clk : Clock) :
  preserves only_camera_alerts (log_and_alert "unknown" "Camera turned off" clk).
Proof.
  apply (preserves_log_and_alert only_camera_alerts); intros st;
    unfold only_camera_alerts; cbn; (split; [reflexivity|]); split.
  - reflexivity.
  - exists []. split; [now rewrite app_nil_r | constructor].
  - reflexivity.
  - exists []. split; [now rewrite app_nil_r | constructor].
  - intros key Hkey. now apply lookup_insert_ne.
  - eexists. split; [reflexivity|]. repeat constructor.
Qed.

Lemma camera_off_iteration (f : Frame) :
  camera_off f = true ->
  iteration f
  = (log_and_alert "unknown" "Camera turned off" (at_camera_off f) ;; mret Continue).
Proof. unfold camera_off, iteration. now intros ->. Qed.

Lemma camera_off_loop (frames : list Frame) :
  forallb camera_off frames = true ->
  preserves only_camera_alerts (frame_loop frames).
Proof.
  intros Hoff. apply (frame_loop_preserves only_camera_alerts).
  - intros f _ st. unfold only_camera_alerts. cbn. repeat split.
    exists []. split; [now rewrite app_nil_r | constructor].
  - intros f Hin. rewrite forallb_forall in Hoff.
    rewrite (camera_off_iteration f (Hoff f Hin)).
    apply (preserves_bind only_camera_alerts);
      [apply camera_alert_only | intros _; apply (preserves_ret only_camera_alerts)].
Qed.

End Relations.

(** ** Blinks: one log call each, and nothing else *)

Section Blinks.

Context {collab : Collaborators}.

Lemma log_and_alert_no_blink_call (face_id event : string) (clk : Clock) :
  String.eqb event "Blinking" = false ->
  preserves (blink_calls_grow []) (log_and_alert face_id event clk).
Proof.
  intros Hne.
  apply (preserves_log_and_alert (blink_calls_grow [])); intros st;
    unfold blink_calls_grow, blink_calls; cbn;
    rewrite ?List.filter_app; cbn; unfold is_blink_call; cbn; rewrite Hne, !app_nil_r;
    reflexivity.
Qed.

Lemma blink_calls_still_when (b : bool) (face_id event : string) (clk : Clock) (st : State) :
  String.eqb event "Blinking" = false ->
  wlp (when b (log_and_alert face_id event clk)) (fun _ st' => blink_calls_grow [] st st') st.
Proof.
  intros Hne. apply wlp_of_preserves. apply (preserves_when (blink_calls_grow [])).
  now apply log_and_alert_no_blink_call.
Qed.

Lemma blink_is_logged (face_id : string) (st : State) :
  wlp (log_event face_id "Blinking")
      (fun _ st' => blink_calls_grow [(face_id, "Blinking"%string)] st st') st.
Proof.
  unfold wlp, log_event.
  destruct (log_event_raises st face_id "Blinking"); [trivial|].
  unfold blink_calls_grow, blink_calls. cbn. now rewrite List.filter_app.
Qed.

Lemma wlp_grow_seq {A} (m : M A) (k : M unit) (l1 l2 : list (string * string)) (st : State) :
  wlp m (fun _ st1 => blink_calls_grow l1 st st1) st ->
  (forall st1, wlp k (fun _ st2 => blink_calls_grow l2 st1 st2) st1) ->
  wlp (m ;; k) (fun _ st2 => blink_calls_grow (l1 ++ l2) st st2) st.
Proof.
  intros Hm Hk. apply wlp_bind. eapply wlp_mono; [|exact Hm].
  intros a st1 H1. eapply wlp_mono; [|apply Hk].
  intros b st2 H2. cbn beta in *. eapply blink_calls_grow_trans; eassumption.
Qed.

Lemma dispatch_verdicts_blinks (face_id : string) (f : FaceObs) (st : State) :
  wlp (dispatch_verdicts face_id f)
      (fun _ st' =>
         blink_calls_grow
           (if is_blinking (shape f) then [(face_id, "Blinking"%string)] else []) st st')
      st.
Proof.
  unfold dispatch_verdicts. cbv zeta.
  set (calls := if is_blinking (shape f) then [(face_id, "Blinking"%string)] else []).
  replace calls with ([] ++ calls ++ [] ++ [] ++ [])
    by (cbn [app]; now rewrite app_nil_r).
  apply wlp_grow_seq; [now apply blink_calls_still_when | intros st1].
  apply wlp_grow_seq; [|intros st2].
  { subst calls. destruct (is_blinking (shape f)); cbn [when].
    - apply blink_is_logged.
    - apply wlp_ret, blink_calls_grow_refl. }
  apply wlp_grow_seq; [now apply blink_calls_still_when | intros st3].
  apply wlp_grow_seq; [now apply blink_calls_still_when | intros st4].
  now apply blink_calls_still_when.
Qed.

Lemma expected_blink_calls_cons (f : FaceObs) (fs : list FaceObs) :
  expected_blink_calls (f :: fs) = expected_blink_calls [f] ++ expected_blink_calls fs.
Proof.
  unfold expected_blink_calls. cbn [List.filter].
  destruct (is_blinking (shape f)); reflexivity.
Qed.

Lemma process_face_blinks (f : FaceObs) (st : State) :
  wlp (process_face f) (fun _ st' => blink_calls_grow (expected_blink_calls [f]) st st') st.
Proof.
  unfold process_face. apply wlp_bind.
  unfold wlp at 1, lift. rewrite get_face_id_eq.
  destruct (well_formed (shape f)); [|trivial].
  eapply wlp_mono; [|apply dispatch_verdicts_blinks].
  intros u st'. unfold expected_blink_calls. cbn [List.filter].
  now destruct (is_blinking (shape f)).
Qed.

Lemma faces_blinks (fs : list FaceObs) (st : State) :
  wlp (for_each process_face fs)
      (fun _ st' => blink_calls_grow (expected_blink_calls fs) st st') st.
Proof.
  revert st. induction fs as [|f fs IH]; intros st; cbn [for_each].
  - apply wlp_ret, blink_calls_grow_refl.
  - rewrite expected_blink_calls_cons.
    apply wlp_grow_seq; [apply process_face_blinks | intros st1; apply IH].
Qed.

(** Whatever the outcome, a face adds its blink call exactly when line 98
    is reached. *)
Lemma process_face_blink_calls (f : FaceObs) (st : State) :
  blink_calls (fst (process_face f st))
  = blink_calls st
    ++ (if blink_reached f st
        then [(MD5.hexdigest (serialize (shape f)), "Blinking"%string)] else []).
Proof.
  unfold blink_reached, process_face. rewrite bind_run. unfold lift.
  rewrite get_face_id_eq.
  destruct (well_formed (shape f)); [|now rewrite app_nil_r].
  set (face_id := MD5.hexdigest (serialize (shape f))).
  unfold dispatch_verdicts. cbv zeta. rewrite bind_run.
  set (drowsy_alert := when (is_drowsy (shape f))
                            (log_and_alert face_id "Drowsiness" (at_drowsy f))).
  assert (Hd : blink_calls_grow [] st (fst (drowsy_alert st))).
  { apply (preserves_when (blink_calls_grow [])).
    now apply log_and_alert_no_blink_call. }
  unfold blink_calls_grow in Hd. rewrite app_nil_r in Hd.
  destruct (drowsy_alert st) as [s1 [[]|e]]; cbn [fst snd returned andb] in *;
    [|now rewrite andb_false_r, app_nil_r].
  rewrite andb_true_r. rewrite <- Hd. clear Hd.
  set (rest := when (is_watching_away (shape f))
                    (log_and_alert face_id "Looking Away" (at_away f)) ;;
               when (is_head_down (shape f))
                    (log_and_alert face_id "Head Down" (at_down f)) ;;
               when (is_talking (shape f))
                    (log_and_alert face_id "Talking" (at_talk f))).
  assert (Hrest : forall s, blink_calls (fst (rest s)) = blink_calls s).
  { intros s.
    assert (H : blink_calls_grow [] s (fst (rest s))).
    { subst rest.
      repeat (apply (preserves_bind (blink_calls_grow [])); [|intros _]);
        apply (preserves_when (blink_calls_grow []));
        now apply log_and_alert_no_blink_call. }
    unfold blink_calls_grow in H. now rewrite app_nil_r in H. }
  rewrite bind_run. fold rest.
  destruct (is_blinking (shape f)); cbn [when].
  - unfold log_event at 1.
    assert (Hlog : blink_calls (record_log_call face_id "Blinking" s1)
                   = blink_calls s1 ++ [(face_id, "Blinking"%string)]).
    { unfold blink_calls. cbn. now rewrite List.filter_app. }
    destruct (log_event_raises s1 face_id "Blinking"); cbn [fst].
    + exact Hlog.
    + now rewrite Hrest, Hlog.
  - cbn. rewrite Hrest. now rewrite app_nil_r.
Qed.

Lemma iteration_blinks (f : Frame) (st : State) :
  wlp (iteration f)
      (fun _ st' => blink_calls_grow (expected_blink_calls (faces_processed f)) st st') st.
Proof.
  unfold iteration, faces_processed, camera_off.
  destruct (negb (ret f) || negb (is_camera_on f)) eqn:Hoff.
  - apply wlp_bind.
    eapply wlp_mono; [|apply (blink_calls_still_when true); reflexivity].
    intros u st1 Hgrow. apply wlp_ret. exact Hgrow.
  - destruct (length (faces f) =? 0)%nat eqn:Hlen.
    + apply Nat.eqb_eq, length_zero_iff_nil in Hlen. rewrite Hlen.
      apply wlp_bind. unfold wlp at 1. cbn [update_absence set_absence_timer].
      apply wlp_bind. unfold wlp at 1. cbn [exceeded_limit].
      apply wlp_bind.
      eapply wlp_mono; [|apply blink_calls_still_when; reflexivity].
      intros u st1 Hgrow. apply wlp_ret. exact Hgrow.
    + apply wlp_bind. unfold wlp at 1. cbn [update_absence set_absence_timer].
      apply wlp_bind.
      eapply wlp_mono; [|apply faces_blinks].
      intros u st1 Hgrow.
      apply wlp_bind. unfold wlp at 1. cbn [poll_stop].
      apply wlp_ret. exact Hgrow.
Qed.

(** Whenever the loop has gone through all the frames it was given, the
    blinks of all the faces it processed are in the log calls. *)
Lemma frame_loop_blinks (frames : list Frame) (st : State) :
  wlp (frame_loop frames)
      (fun status st' =>
         status = Iterating ->
         blink_calls_grow
           (flat_map (fun f => expected_blink_calls (faces_processed f)) frames) st st')
      st.
Proof.
  revert st. induction frames as [|f frames IH]; intros st; cbn [frame_loop flat_map].
  - apply wlp_ret. intros _. apply blink_calls_grow_refl.
  - apply wlp_bind. unfold wlp at 1, observe_stop. cbn [set_stop_flag].
    destruct (negb (is_opened f)); [apply wlp_ret; discriminate|].
    apply wlp_bind. eapply wlp_mono; [|apply iteration_blinks].
    intros flow st1 Hgrow1. destruct flow; [|apply wlp_ret; discriminate].
    eapply wlp_mono; [|apply IH].
    intros status st2 Hgrow2 Hstatus.
    apply (blink_calls_grow_trans _ _ st st1 st2); [exact Hgrow1 | now apply Hgrow2].
Qed.

(** *** Frames on which only the blink classifier fires *)

Lemma dispatch_verdicts_blink_only (face_id : string) (f : FaceObs) :
  blink_only f = true ->
  preserves alerts_same (dispatch_verdicts face_id f).
Proof.
  unfold blink_only. intros H.
  apply andb_prop in H as [H Htalk]. apply andb_prop in H as [H Hdown].
  apply andb_prop in H as [Hdrowsy Haway].
  apply negb_true_iff in Htalk, Hdown, Hdrowsy, Haway.
  unfold dispatch_verdicts. rewrite Htalk, Hdown, Hdrowsy, Haway. cbn [when].
  repeat (apply (preserves_bind alerts_same); [|intros _]);
    try apply (preserves_ret alerts_same).
  apply (preserves_when alerts_same). intros st. by_fields.
Qed.

Lemma blink_frame_iteration (f : Frame) :
  blink_frame f = true -> preserves alerts_same (iteration f).
Proof.
  unfold blink_frame, camera_off. intros H.
  apply andb_prop in H as [H Honly]. apply andb_prop in H as [Hoff Hlen].
  apply negb_true_iff in Hoff, Hlen.
  unfold iteration. rewrite Hoff, Hlen.
  apply (preserves_bind alerts_same); [intros st; by_fields | intros _].
  apply (preserves_bind alerts_same); [|intros _].
  - apply (preserves_for_each alerts_same). intros face Hin.
    rewrite forallb_forall in Honly.
    unfold process_face. apply (preserves_bind alerts_same).
    + apply (preserves_lift alerts_same).
    + intros face_id. apply dispatch_verdicts_blink_only. now apply Honly.
  - apply (preserves_bind alerts_same); [intros st; by_fields | intros stop].
    apply (preserves_ret alerts_same).
Qed.

Lemma blink_frames_loop (frames : list Frame) :
  forallb blink_frame frames = true -> preserves alerts_same (frame_loop frames).
Proof.
  intros Hall. rewrite forallb_forall in Hall.
  apply (frame_loop_preserves alerts_same).
  - intros f _ st. by_fields.
  - intros f Hin. apply blink_frame_iteration. now apply Hall.
Qed.

End Blinks.

(** ** Runs that go through all their frames *)

Section Returns.

Context {collab : Collaborators} (Hrel : sinks_reliable).

Lemma log_and_alert_total (face_id event : string) (clk : Clock) :
  total (log_and_alert face_id event clk).
Proof. intros st. now rewrite log_and_alert_returns. Qed.

Lemma log_event_total (face_id event : string) : total (log_event face_id event).
Proof. intros st. cbn. now rewrite (proj1 Hrel). Qed.

Lemma dispatch_verdicts_total (face_id : string) (f : FaceObs) :
  total (dispatch_verdicts face_id f).
Proof.
  unfold dispatch_verdicts.
  repeat (apply total_bind; [|intros _]); apply total_when;
    (apply log_and_alert_total || apply log_event_total).
Qed.

Lemma process_face_total (f : FaceObs) :
  well_formed (shape f) = true -> total (process_face f).
Proof.
  intros Hwf. unfold process_face. apply total_bind.
  - intros st. cbn. now rewrite get_face_id_eq, Hwf.
  - intros face_id. apply dispatch_verdicts_total.
Qed.

Lemma faces_total (fs : list FaceObs) :
  forallb (fun face => well_formed (shape face)) fs = true ->
  total (for_each process_face fs).
Proof.
  intros Hwf. rewrite forallb_forall in Hwf.
  apply total_for_each. intros f Hin. apply process_face_total. now apply Hwf.
Qed.

Lemma iteration_total (f : Frame) :
  forallb (fun face => well_formed (shape face)) (faces_processed f) = true ->
  total (iteration f).
Proof.
  unfold iteration, faces_processed, camera_off. intros Hwf.
  destruct (negb (ret f) || negb (is_camera_on f)).
  - apply total_bind; [apply log_and_alert_total | intros _; apply total_ret].
  - destruct (length (faces f) =? 0)%nat.
    + apply total_bind; [intros st; reflexivity | intros _].
      apply total_bind; [intros st; reflexivity | intros exceeded].
      apply total_bind; [|intros _; apply total_ret].
      apply total_when, log_and_alert_total.
    + apply total_bind; [intros st; reflexivity | intros _].
      apply total_bind; [now apply faces_total | intros _].
      apply total_bind; [intros st; reflexivity | intros stop; apply total_ret].
Qed.

End Returns.

Section Flow.

Context {collab : Collaborators}.

Lemma iteration_stop_same (f : Frame) : preserves stop_same (iteration f).
Proof.
  apply (iteration_preserves stop_same).
  - apply (preserves_log_and_alert stop_same); intros st; reflexivity.
  - apply (preserves_log_and_alert stop_same); intros st; reflexivity.
  - intros absent now st. reflexivity.
  - intros st. reflexivity.
  - apply (faces_preserve stop_same).
    + intros face_id event clk _.
      apply (preserves_log_and_alert stop_same); intros st; reflexivity.
    + intros face_id st. reflexivity.
Qed.

(** An iteration that starts with the stop entry unset does not break. *)
Lemma iteration_continues (f : Frame) (st : State) :
  stop_flag st = false ->
  wlp (iteration f) (fun flow _ => flow = Continue) st.
Proof.
  intros Hstop. unfold iteration.
  destruct (negb (ret f) || negb (is_camera_on f)).
  - apply wlp_bind.
    eapply wlp_mono; [|apply (wlp_of_preserves (fun _ _ => True)); intros s; exact I].
    intros u st1 _. now apply wlp_ret.
  - destruct (length (faces f) =? 0)%nat.
    + apply wlp_bind. unfold wlp at 1. cbn [update_absence set_absence_timer].
      apply wlp_bind. unfold wlp at 1. cbn [exceeded_limit].
      apply wlp_bind.
      eapply wlp_mono; [|apply (wlp_of_preserves (fun _ _ => True)); intros s; exact I].
      intros u st1 _. now apply wlp_ret.
    + apply wlp_bind. unfold wlp at 1. cbn [update_absence set_absence_timer].
      apply wlp_bind.
      eapply wlp_mono; [|apply (wlp_of_preserves control_same), faces_control].
      intros u st1 (Hflag & _). cbn [stop_flag] in Hflag.
      apply wlp_bind. unfold wlp at 1. cbn [poll_stop].
      apply wlp_ret. now rewrite Hflag, Hstop.
Qed.

Lemma frame_loop_iterates (frames : list Frame) (st : State) :
  sinks_reliable ->
  forallb frame_ready frames = true ->
  stop_flag st = false ->
  snd (frame_loop frames st) = Returned Iterating.
Proof.
  intros Hrel. revert st.
  induction frames as [|f frames IH]; intros st Hready Hstop; cbn [frame_loop].
  - reflexivity.
  - cbn [forallb] in Hready. apply andb_prop in Hready as [Hf Hrest].
    unfold frame_ready in Hf.
    apply andb_prop in Hf as [Hf Hwf]. apply andb_prop in Hf as [Hpress Hopen].
    apply negb_true_iff in Hpress.
    rewrite bind_run. unfold observe_stop. cbn [set_stop_flag].
    rewrite Hpress, Hstop, Hopen. cbn [orb negb].
    rewrite bind_run.
    match goal with |- context [iteration f ?s] => set (st_o := s) end.
    destruct (total_run (iteration f) st_o (iteration_total Hrel f Hwf))
      as (flow & st1 & Hrun).
    pose proof (wlp_run _ _ _ _ _ (iteration_continues f st_o eq_refl) Hrun) as Hflow.
    pose proof (iteration_stop_same f st_o) as Hsame.
    rewrite Hrun in *. cbn [fst] in Hsame. cbn beta in Hflow. subst flow.
    apply IH; [exact Hrest | exact Hsame].
Qed.

End Flow.

(** ** The frame loop *)

Section LoopClaims.

Context {collab : Collaborators}.

(** C5, amended. A face gets exactly one call
    [log_event(face_id, "Blinking")] when line 98 is reached with a true
    blink verdict, that is when its identifier has been computed, the blink
    classifier fires and the drowsiness alert that comes before, if any,
    returns; otherwise (in particular when that alert raises) it gets none.
    So every iteration of the loop that returns has added one call per
    blinking face, under the identifier of that face and in the order of
    the faces, and whenever the loop has gone through the frames it was
    given, N detected blinks have given N log calls, whatever the clock
    readings; the loop does go through them when the sinks return, the
    capture stays open, the landmarks are in range and no stop is
    requested. Blinks never reach the throttle or the dispatch bundle: the
    timestamp map has no write under "Blinking", the ledger and the warning
    manager get nothing tagged "Blinking", and over frames on which no other
    classifier fires the timestamp map, the ledger, the notifications and
    the warnings do not change at all. *)
Theorem C5_blinks_are_logged_and_never_alert (frames : list Frame) (st : State) :
  let st' := fst (frame_loop frames st) in
  let blinking_faces :=
    List.filter (fun face => is_blinking (shape face)) (flat_map faces_processed frames) in
  (forall (face : FaceObs) (s : State),
     blink_calls (fst (process_face face s))
     = blink_calls s
       ++ (if blink_reached face s
           then [(MD5.hexdigest (serialize (shape face)), "Blinking"%string)] else []))
  /\ (forall (f : Frame) (s s' : State) (flow : Flow),
     iteration f s = (s', Returned flow) ->
     blink_calls s'
     = blink_calls s
       ++ map (fun face => (MD5.hexdigest (serialize (shape face)), "Blinking"%string))
              (List.filter (fun face => is_blinking (shape face)) (faces_processed f)))
  /\ (snd (frame_loop frames st) = Returned Iterating ->
      blink_calls st'
      = blink_calls st
        ++ map (fun face => (MD5.hexdigest (serialize (shape face)), "Blinking"%string))
               blinking_faces
      /\ length (blink_calls st') = (length (blink_calls st) + length blinking_faces)%nat)
  /\ (sinks_reliable ->
      forallb frame_ready frames = true ->
      stop_flag st = false ->
      snd (frame_loop frames st) = Returned Iterating)
  /\ last_alert_time st' !! "Blinking"%string = last_alert_time st !! "Blinking"%string
  /\ blink_rows st' = blink_rows st
  /\ blink_warnings st' = blink_warnings st
  /\ (forallb blink_frame frames = true ->
      last_alert_time st' = last_alert_time st
      /\ logs st' = logs st
      /\ notify_calls st' = notify_calls st
      /\ warnings st' = warnings st).
Proof.
  intros st' blinking_faces.
  assert (Hexp : flat_map (fun f => expected_blink_calls (faces_processed f)) frames
                 = map (fun face => (MD5.hexdigest (serialize (shape face)), "Blinking"%string))
                       blinking_faces).
  { subst blinking_faces. clear. induction frames as [|f frames IH]; [reflexivity|].
    cbn [flat_map]. rewrite List.filter_app, map_app, <- IH. reflexivity. }
  pose proof (frame_loop_blink_quiet frames st) as (Hkey & Hrows & Hwarn).
  split; [apply process_face_blink_calls|].
  split; [|split; [|split; [|split; [exact Hkey|split; [exact Hrows|split; [exact Hwarn|]]]]]].
  - intros f s s' flow Hrun.
    exact (wlp_run _ _ _ _ _ (iteration_blinks f s) Hrun).
  - intros Hrun. subst st'.
    destruct (frame_loop frames st) as [st1 o] eqn:Hloop. cbn [fst snd] in *. subst o.
    pose proof (wlp_run _ _ _ _ _ (frame_loop_blinks frames st) Hloop eq_refl) as Hcalls.
    unfold blink_calls_grow in Hcalls. rewrite Hexp in Hcalls.
    split; [exact Hcalls|]. now rewrite Hcalls, length_app, length_map.
  - apply frame_loop_iterates.
  - intros Hblink. exact (blink_frames_loop frames Hblink st).
Qed.

(** C7, amended. [monitor_stream] releases the capture handle (and resets
    the stop entry) whenever the loop ends by its condition or by the stop
    break; as long as the loop is iterating, and when an exception leaves
    it, the handle is as it was. The stop entry is read exactly once in
    every iteration that processes detected faces and returns, and the loop
    breaks exactly when the entry is set. *)
Theorem C7_release_and_stop_poll (frames : list Frame) (f : Frame) (st : State) :
  match snd (monitor_stream frames st) with
  | Returned Exited =>
      cap_released (fst (monitor_stream frames st)) = true
      /\ stop_flag (fst (monitor_stream frames st)) = false
  | Returned Iterating | Raised _ =>
      cap_released (fst (monitor_stream frames st)) = cap_released st
  end
  /\ (camera_off f = false ->
      faces f <> [] ->
      match iteration f st with
      | (st', Returned flow) =>
          stop_polls st' = S (stop_polls st)
          /\ flow = (if stop_flag st then Break else Continue)
      | (st', Raised _) => stop_polls st' = stop_polls st
      end).
Proof.
  split.
  - unfold monitor_stream. rewrite bind_run.
    pose proof (frame_loop_released frames st) as Hrel. unfold released_same in Hrel.
    destruct (frame_loop frames st) as [st1 [[|]|e]];
      unfold mbind, M_bind, mret, M_ret; cbn in *; auto.
  - intros Hoff Hfaces. unfold camera_off in Hoff. unfold iteration. rewrite Hoff.
    destruct (faces f) as [|face fs] eqn:Hfs; [contradiction|]. cbn [length Nat.eqb].
    rewrite bind_run. cbn [update_absence set_absence_timer].
    set (st_a := {| last_alert_time := last_alert_time st |}).
    rewrite bind_run.
    pose proof (faces_control (face :: fs) st_a) as (Hflag & Hpolls & _).
    destruct (for_each process_face (face :: fs) st_a) as [st1 [[]|e]]; cbn [fst] in *.
    + rewrite bind_run. cbn. rewrite Hflag, Hpolls. now split.
    + exact Hpolls.
Qed.

(** The same iteration seen from the other side: on a frame that is not
    read, or that shows no face, the stop entry is not read and the loop
    does not break. *)
Lemma iteration_without_face_never_polls (f : Frame) (st : State) :
  camera_off f = true \/ faces f = [] ->
  stop_polls (fst (iteration f st)) = stop_polls st
  /\ snd (iteration f st) <> Returned Break.
Proof.
  intros Hcase. unfold camera_off in Hcase. unfold iteration.
  destruct (negb (ret f) || negb (is_camera_on f)) eqn:Hoff.
  - rewrite bind_run.
    pose proof (preserves_log_and_alert control_same "unknown" "Camera turned off"
                  (at_camera_off f)) as Hctl.
    specialize (Hctl ltac:(intros s; by_fields) ltac:(intros s; by_fields)
                     ltac:(intros s; by_fields) st) as (_ & Hpolls & _).
    destruct (log_and_alert "unknown" "Camera turned off" (at_camera_off f) st)
      as [st1 [[]|e]]; cbn in *; split; (exact Hpolls || discriminate).
  - destruct Hcase as [Hcase|Hnil]; [discriminate|]. rewrite Hnil. cbn [length Nat.eqb].
    rewrite bind_run. cbn [update_absence set_absence_timer].
    rewrite bind_run. cbn [exceeded_limit]. rewrite bind_run.
    match goal with |- context [when ?b ?m ?s] => set (b0 := b); set (s0 := s) end.
    assert (Hctl : control_same s0 (fst (when b0
              (log_and_alert "unknown" "User left screen" (at_left f)) s0))).
    { apply (preserves_when control_same).
      apply (preserves_log_and_alert control_same); intros s; by_fields. }
    destruct Hctl as (_ & Hpolls & _).
    destruct (when b0 (log_and_alert "unknown" "User left screen" (at_left f)) s0)
      as [st1 [[]|e]]; cbn in *; split; (exact Hpolls || discriminate).
Qed.

(** C10. Across any run of frames on which the read fails or the camera is
    reported off, the absence timer is untouched: the flag [is_absent] and
    the time [absent_since] at the end of the run are those of its start,
    whatever the outcomes of the sinks. Of the session state only the
    timestamp stored under "Camera turned off" may differ, and the ledger
    may only have grown by rows of ("unknown", "Camera turned off"). *)
Theorem C10_camera_off_run_keeps_absence_state (frames : list Frame) (st : State) :
  forallb camera_off frames = true ->
  let st' := fst (frame_loop frames st) in
  absence_timer st' = absence_timer st
  /\ is_absent (absence_timer st') = is_absent (absence_timer st)
  /\ absent_since (absence_timer st') = absent_since (absence_timer st)
  /\ (forall key : string,
        key <> "Camera turned off"%string ->
        last_alert_time st' !! key = last_alert_time st !! key)
  /\ (exists rows, logs st' = logs st ++ rows /\ Forall is_camera_row rows).
Proof.
  intros Hoff st'. subst st'.
  destruct (camera_off_loop frames Hoff st) as (Habs & Hkeys & Hrows).
  rewrite Habs. repeat split; assumption.
Qed.

End LoopClaims.

(** *** The loop claims on concrete runs *)

Lemma reliable_sinks : sinks_reliable (collab := reliable).
Proof. split; intros; reflexivity. Defined.

(** C5 as stated fails: on a face that is drowsy and blinking, with a
    notification sink that raises, the blink classifier has returned true
    and no call of [log_event] for "Blinking" is made: the exception of the
    drowsiness alert leaves before line 98. *)
Lemma C5_counterexample :
  let face := face_at (-2) 0 in
  let r := process_face (collab := notify_down) face fresh in
  is_blinking (Collaborators := notify_down) (shape face) = true
  /\ is_drowsy (Collaborators := notify_down) (shape face) = true
  /\ snd r = Raised NotifyError
  /\ blink_calls (fst r) = []
  /\ log_calls (fst r) = [("570873e8d5e8d74d25b96aa193701952", "Drowsiness")]%string
  /\ snd (iteration (collab := notify_down) drowsy_frame fresh) = Raised NotifyError
  /\ blink_calls (fst (iteration (collab := notify_down) drowsy_frame fresh)) = [].
Proof. vm_compute. repeat split. Qed.

Lemma C5_witness :
  forallb frame_ready blink_run = true
  /\ stop_flag fresh = false
  /\ forallb (blink_frame (collab := reliable)) blink_run = true
  /\ snd (frame_loop (collab := reliable) blink_run fresh) = Returned Iterating
  /\ length (blink_calls (fst (frame_loop (collab := reliable) blink_run fresh))) = 2%nat
  /\ logs (fst (frame_loop (collab := reliable) blink_run fresh)) = logs fresh
  /\ blink_reached (collab := reliable) (face_at 2 0) fresh = true
  /\ blink_calls (fst (process_face (collab := reliable) (face_at 2 0) fresh))
     = [("8db3ccab04696ed916af9276463f901e", "Blinking")]%string.
Proof.
  pose proof (@C5_blinks_are_logged_and_never_alert reliable blink_run fresh)
    as (Hface & _ & Hcalls & Hret & _ & _ & _ & Hsame).
  specialize (Hret reliable_sinks eq_refl eq_refl).
  destruct (Hcalls Hret) as [_ Hlen].
  split; [reflexivity|]. split; [reflexivity|]. split; [reflexivity|].
  split; [exact Hret|]. split; [rewrite Hlen; reflexivity|].
  split; [exact (proj1 (proj2 (Hsame eq_refl)))|].
  split; [reflexivity|].
  rewrite Hface. vm_compute. reflexivity.
Defined.

(** C7 as stated fails on both counts. While no face is in view, or the
    read fails, the stop entry is set but never read, and the loop goes on
    with the handle unreleased; and when the notification sink raises
    during an iteration, the exception leaves [monitor_stream] with the
    handle unreleased. *)
Lemma C7_counterexample :
  let r := monitor_stream (collab := reliable) faceless_run fresh in
  let crash := monitor_stream (collab := notify_down) [drowsy_frame] fresh in
  snd r = Returned Iterating
  /\ stop_flag (fst r) = true
  /\ stop_polls (fst r) = 0%nat
  /\ cap_released (fst r) = false
  /\ snd crash = Raised NotifyError
  /\ cap_released (fst crash) = false.
Proof. vm_compute. repeat split. Qed.

Lemma C7_witness :
  camera_off stop_frame = false
  /\ faces stop_frame <> []
  /\ stop_polls (fst (iteration (collab := reliable) stop_frame fresh)) = 1%nat
  /\ cap_released (fst (monitor_stream (collab := reliable) [stop_frame] fresh)) = true.
Proof.
  split; [reflexivity|]. split; [discriminate|].
  generalize (@C7_release_and_stop_poll reliable [stop_frame] stop_frame fresh).
  vm_compute. intros [[Hrel _] Hpoll]. split.
  - apply Hpoll; [reflexivity | discriminate].
  - exact Hrel.
Defined.

Lemma C10_witness :
  forallb camera_off outage = true
  /\ absence_timer (fst (frame_loop (collab := reliable) outage away))
     = {| is_absent := true; absent_since := Some 90%Q |}.
Proof.
  split; [reflexivity|].
  exact (proj1 (@C10_camera_off_run_keeps_absence_state reliable outage away eq_refl)).
Defined.

(** ** Test vectors *)

Example md5_empty : MD5.hexdigest [] = "d41d8cd98f00b204e9800998ecf8427e"%string.
Proof. vm_compute. reflexivity. Qed.

Example md5_abc : MD5.hexdigest [97; 98; 99] = "900150983cd24fb0d6963f7d28e17f72"%string.
Proof. vm_compute. reflexivity. Qed.

Example md5_block_boundaries :
  MD5.hexdigest (repeat 97 55) = "ef1772b6dff9a122358552954ad0df65"%string
  /\ MD5.hexdigest (repeat 97 56) = "3b0c8ac703f828b04c6c197006d17218"%string
  /\ MD5.hexdigest (repeat 97 64) = "014842d480b571495a4a0363793f7367"%string.
Proof. vm_compute. repeat split. Qed.

(** A face of 68 landmarks: 272 bytes, five blocks. *)
Example get_face_id_68_landmarks :
  get_face_id (map (fun i => {| px := 7 * i - 100; py := 500 - 3 * i |})
                   (map Z.of_nat (seq 0 LANDMARK_COUNT)))
  = Returned "ec051865cf7efbc1c936fce5f1a392c3"%string.
Proof. vm_compute. reflexivity. Qed.

(** The end-to-end scenario of a subject looking away at 100, 105 and 111
    seconds: admitted, suppressed, admitted. *)
Example looking_away_three_times :
  let s1 := fst (log_and_alert (collab := reliable) "A" "Looking Away" (at_time 100) fresh) in
  let s2 := fst (log_and_alert (collab := reliable) "A" "Looking Away" (at_time 105) s1) in
  let s3 := fst (log_and_alert (collab := reliable) "A" "Looking Away" (at_time 111) s2) in
  length (logs s1) = 1%nat /\ length (logs s2) = 1%nat /\ length (logs s3) = 2%nat.
Proof. vm_compute. repeat split. Qed.

(* ===================================================================== *)
(** * Properties of a whole run                                           *)
(* ===================================================================== *)

(** ** From the calls a run can make to the run *)

Section Respect.

Context {collab : Collaborators}.
Context (strict : bool) (R : State -> State -> Prop) {R_pre : PreOrder R}.

Lemma respects_ret {A} (a : A) : respects strict R (mret a : M A).
Proof. intros st. cbn. reflexivity. Qed.

Lemma respects_bind {A B} (m : M A) (k : A -> M B) :
  respects strict R m -> (forall a, respects strict R (k a)) ->
  respects strict R (m ≫= k).
Proof.
  intros Hm Hk st. rewrite bind_run. specialize (Hm st).
  destruct (m st) as [st1 [a|e]]; [|exact Hm].
  specialize (Hk a st1). destruct (k a st1) as [st2 [b|e]].
  - now transitivity st1.
  - destruct strict; [now transitivity st1 | exact I].
Qed.

Lemma respects_when (b : bool) (m : M unit) :
  respects strict R m -> respects strict R (when b m).
Proof. destruct b; [trivial | intros _; apply respects_ret]. Qed.

Lemma respects_for_each {A} (body : A -> M unit) (l : list A) :
  (forall x, In x l -> respects strict R (body x)) ->
  respects strict R (for_each body l).
Proof.
  induction l as [|x l IH]; intros Hbody; cbn [for_each].
  - apply respects_ret.
  - apply respects_bind; [apply Hbody; now left|].
    intros _. apply IH. intros y Hy. apply Hbody. now right.
Qed.

(** A step that cannot raise and whose effect is related to the state. *)
Lemma respects_step {A} (m : M A) :
  (forall st, R st (fst (m st))) -> respects strict R m.
Proof.
  intros Hm st. specialize (Hm st). destruct (m st) as [st1 [a|e]]; cbn [fst] in Hm.
  - exact Hm.
  - destruct strict; [exact Hm | exact I].
Qed.

(** [log_and_alert]: the states left by a raise matter only when [strict]
    is set, and the dispatched state only where the guard holds. *)
Lemma respects_log_and_alert (face_id event : string) (clk : Clock) :
  (strict = true -> forall st, R st (logged face_id event st)) ->
  (strict = true -> forall st, R st (notified face_id event st)) ->
  (forall st, cooldown_elapsed st event (time_time clk) = true ->
              R st (dispatched face_id event clk st)) ->
  respects strict R (log_and_alert face_id event clk).
Proof.
  intros Hlog Hnot Hdis st.
  destruct (cooldown_elapsed st event (time_time clk)) eqn:Hadm.
  - rewrite (log_and_alert_admitted _ _ _ _ Hadm).
    destruct (log_sink_fails face_id event st).
    + destruct strict; [now apply Hlog | exact I].
    + destruct (notify_sink_fails face_id event st).
      * destruct strict; [now apply Hnot | exact I].
      * now apply Hdis.
  - rewrite (log_and_alert_suppressed _ _ _ _ Hadm). reflexivity.
Qed.

(** The premises on the steps of a run other than [log_and_alert]. *)
Hypothesis blink_ok : forall face_id, respects strict R (log_event face_id "Blinking").
Hypothesis absence_ok : forall absent now st, R st (fst (update_absence absent now st)).
Hypothesis poll_ok : forall st, R st (fst (poll_stop st)).
Hypothesis observe_ok : forall f st, R st (fst (observe_stop f st)).
Hypothesis release_ok : forall st, R st (fst (cap_release st)).
Hypothesis reset_ok : forall st, R st (fst (set_stop_flag false st)).

Lemma respects_call_if (made : bool) (face_id event : string) (clk : Clock) :
  (forall c, In c (call_if made face_id event clk) ->
             respects strict R (log_and_alert (call_id c) (call_event c) (call_clock c))) ->
  respects strict R (when made (log_and_alert face_id event clk)).
Proof.
  intros Hc. destruct made; cbn [when]; [|apply respects_ret].
  exact (Hc _ (or_introl eq_refl)).
Qed.

Lemma process_face_respects (face : FaceObs) :
  (forall c, In c (face_calls face) ->
             respects strict R (log_and_alert (call_id c) (call_event c) (call_clock c))) ->
  respects strict R (process_face face).
Proof.
  intros Hcalls st. unfold process_face. rewrite bind_run.
  unfold lift. rewrite get_face_id_eq.
  destruct (well_formed (shape face));
    [|destruct strict; [reflexivity | exact I]].
  revert st. change (respects strict R
    (dispatch_verdicts (MD5.hexdigest (serialize (shape face))) face)).
  unfold dispatch_verdicts. cbv zeta. unfold face_calls in Hcalls. cbv zeta in Hcalls.
  apply respects_bind; [|intros _].
  { apply respects_call_if. intros c Hc. apply Hcalls. apply in_or_app. now left. }
  apply respects_bind; [apply respects_when, blink_ok | intros _].
  apply respects_bind; [|intros _].
  { apply respects_call_if. intros c Hc. apply Hcalls.
    apply in_or_app. right. apply in_or_app. now left. }
  apply respects_bind; [|intros _].
  { apply respects_call_if. intros c Hc. apply Hcalls.
    apply in_or_app. right. apply in_or_app. right. apply in_or_app. now left. }
  apply respects_call_if. intros c Hc. apply Hcalls.
  apply in_or_app. right. apply in_or_app. right. apply in_or_app. now right.
Qed.

Lemma iteration_respects (f : Frame) :
  (forall c, In c (frame_calls f) ->
             respects strict R (log_and_alert (call_id c) (call_event c) (call_clock c))) ->
  respects strict R (iteration f).
Proof.
  intros Hcalls. unfold frame_calls, camera_off in Hcalls. unfold iteration.
  destruct (negb (ret f) || negb (is_camera_on f)).
  - apply respects_bind; [|intros _; apply respects_ret].
    exact (Hcalls _ (or_introl eq_refl)).
  - destruct (length (faces f) =? 0)%nat.
    + apply respects_bind; [apply respects_step, absence_ok | intros _].
      apply respects_bind; [apply respects_step; intros st; reflexivity | intros exceeded].
      apply respects_bind; [|intros _; apply respects_ret].
      apply respects_when. exact (Hcalls _ (or_introl eq_refl)).
    + apply respects_bind; [apply respects_step, absence_ok | intros _].
      apply respects_bind; [|intros _].
      * apply respects_for_each. intros face Hin. apply process_face_respects.
        intros c Hc. apply Hcalls. apply in_flat_map. now exists face.
      * apply respects_bind; [apply respects_step, poll_ok | intros stop].
        apply respects_ret.
Qed.

Lemma frame_loop_respects (frames : list Frame) :
  (forall c, In c (run_calls frames) ->
             respects strict R (log_and_alert (call_id c) (call_event c) (call_clock c))) ->
  respects strict R (frame_loop frames).
Proof.
  unfold run_calls.
  induction frames as [|f rest IH]; intros Hcalls; cbn [frame_loop].
  - apply respects_ret.
  - apply respects_bind; [apply respects_step, observe_ok | intros _].
    destruct (negb (is_opened f)); [apply respects_ret|].
    apply respects_bind.
    + apply iteration_respects. intros c Hc. apply Hcalls.
      cbn [flat_map]. apply in_or_app. now left.
    + intros flow. destruct flow; [|apply respects_ret].
      apply IH. intros c Hc. apply Hcalls. cbn [flat_map]. apply in_or_app. now right.
Qed.

Lemma monitor_stream_respects (frames : list Frame) :
  (forall c, In c (run_calls frames) ->
             respects strict R (log_and_alert (call_id c) (call_event c) (call_clock c))) ->
  respects strict R (monitor_stream frames).
Proof.
  intros Hcalls.
  unfold monitor_stream. apply respects_bind; [now apply frame_loop_respects|].
  intros status. destruct status; [apply respects_ret|].
  apply respects_bind; [apply respects_step, release_ok | intros _].
  apply respects_bind; [apply respects_step, reset_ok | intros _].
  apply respects_ret.
Qed.

End Respect.

Lemma respects_strict {collab : Collaborators} {A} (R : State -> State -> Prop) (m : M A)
    (st : State) :
  respects true R m -> R st (fst (m st)).
Proof. intros Hm. specialize (Hm st). now destruct (m st) as [st1 [a|e]]. Qed.

Lemma respects_returned {collab : Collaborators} {A} (R : State -> State -> Prop) (m : M A)
    (st : State) :
  respects false R m -> returned (snd (m st)) = true -> R st (fst (m st)).
Proof.
  intros Hm Hret. specialize (Hm st). destruct (m st) as [st1 [a|e]]; [exact Hm|discriminate].
Qed.

Lemma Qle_bool_false_lt (x y : Q) : Qle_bool x y = false -> (y < x)%Q.
Proof.
  intros E. destruct (Qlt_le_dec y x) as [H|H]; [exact H|].
  apply Qle_bool_iff in H. congruence.
Qed.

(** ** The calls a run can make *)

Section RunCalls.

Context {collab : Collaborators}.

Lemma call_if_inv (made : bool) (face_id event : string) (clk : Clock) (c : AlertCall) :
  In c (call_if made face_id event clk) ->
  c = {| call_id := face_id; call_event := event; call_clock := clk |}.
Proof. destruct made; cbn; [intros [H|[]]; now symmetry | intros []]. Qed.

(** Every call carries "unknown" with one of the two events of the camera
    and of the absence, or a digest with one of the four verdicts. *)
Lemma run_calls_tagged (frames : list Frame) (c : AlertCall) :
  In c (run_calls frames) ->
  (call_id c = "unknown"%string
   /\ (call_event c = "Camera turned off"%string \/ call_event c = "User left screen"%string))
  \/ ((exists sh, call_id c = MD5.hexdigest (serialize sh))
      /\ In (call_event c) alertable_events).
Proof.
  unfold run_calls. intros Hin. apply in_flat_map in Hin as (f & _ & Hc).
  unfold frame_calls in Hc. destruct (camera_off f).
  - apply call_if_inv in Hc. subst c. left. cbn. auto.
  - destruct (length (faces f) =? 0)%nat.
    + apply call_if_inv in Hc. subst c. left. cbn. auto.
    + apply in_flat_map in Hc as (face & _ & Hc). right.
      unfold face_calls in Hc. cbv zeta in Hc.
      repeat (apply in_app_or in Hc as [Hc|Hc]);
        apply call_if_inv in Hc; subst c; cbn; (split; [eauto | tauto]).
Qed.

Lemma run_calls_not_blink (frames : list Frame) (c : AlertCall) :
  In c (run_calls frames) -> String.eqb (call_event c) "Blinking" = false.
Proof.
  intros Hin. destruct (run_calls_tagged frames c Hin) as [[_ [E|E]]|[_ E]].
  - now rewrite E.
  - now rewrite E.
  - cbn in E. destruct E as [<-|[<-|[<-|[<-|[]]]]]; reflexivity.
Qed.

Lemma run_readings_In (frames : list Frame) (c : AlertCall) :
  In c (run_calls frames) ->
  In (time_time (call_clock c)) (run_readings (call_event c) frames).
Proof.
  intros Hin. unfold run_readings.
  apply (in_map (fun c => time_time (call_clock c))).
  apply filter_In. split; [exact Hin | apply String.eqb_refl].
Qed.

End RunCalls.

(** ** Stored times only advance *)

#[local] Instance timestamps_advance_pre : PreOrder timestamps_advance.
Proof.
  split.
  - intros st event. now left.
  - intros s1 s2 s3 H12 H23 event.
    destruct (H12 event) as [E1|A1], (H23 event) as [E2|A2].
    + left. congruence.
    + right. unfold last_time in *. now rewrite <- E1.
    + right. unfold last_time in *. now rewrite E2.
    + right. unfold ALERT_INTERVAL in *. lra.
Qed.

Section Advance.

Context {collab : Collaborators}.

Lemma log_and_alert_advances (face_id event : string) (clk : Clock) :
  respects true timestamps_advance (log_and_alert face_id event clk).
Proof.
  apply (respects_log_and_alert true timestamps_advance).
  - intros _ st e. now left.
  - intros _ st e. now left.
  - intros st Hadm e. apply cooldown_elapsed_spec in Hadm.
    destruct (decide (e = event)) as [->|Hne].
    + right. unfold last_time. rewrite dispatched_last_same. cbn [default].
      unfold ALERT_INTERVAL, id in *. lra.
    + left. now apply dispatched_last_other.
Qed.

(** X1. Over a whole run of [monitor_stream], whatever the clock readings
    and whatever the outcome, the time stored for an event kind is either
    left as it was or has advanced by [ALERT_INTERVAL] at least; read with
    its default 0, it never decreases. *)
Theorem X1_stored_times_only_advance (frames : list Frame) (st : State) (event : string) :
  let st' := fst (monitor_stream frames st) in
  (last_alert_time st' !! event = last_alert_time st !! event
   \/ (last_time st event + ALERT_INTERVAL <= last_time st' event)%Q)
  /\ (last_time st event <= last_time st' event)%Q.
Proof.
  intros st'.
  assert (Hadv : timestamps_advance st st').
  { apply respects_strict.
    apply (monitor_stream_respects true timestamps_advance);
      try (intros; apply log_and_alert_advances);
      try (intros; intros e; now left).
    intros face_id. apply respects_step. intros s e. now left. }
  split; [apply Hadv|].
  destruct (Hadv event) as [E|A].
  - unfold last_time. rewrite E. apply Qle_refl.
  - unfold ALERT_INTERVAL in A. lra.
Qed.

End Advance.

(** ** At most one alert of a kind within a window *)

Lemma within_window_spec (T : list Q) (t1 t2 : Q) :
  within_window T = true -> In t1 T -> In t2 T -> (t2 - t1 < ALERT_INTERVAL)%Q.
Proof.
  unfold within_window. intros Hall H1 H2.
  rewrite forallb_forall in Hall. specialize (Hall t1 H1).
  rewrite forallb_forall in Hall. specialize (Hall t2 H2).
  apply negb_true_iff in Hall. now apply Qle_bool_false_lt.
Qed.

Lemma one_alert_untouched (event : string) (T : list Q) (st st' : State) :
  logs st' = logs st -> last_alert_time st' = last_alert_time st ->
  one_alert event T st st'.
Proof.
  intros Hlogs Hlast. unfold one_alert, locked, event_rows. rewrite Hlogs, Hlast.
  split; [intros H; now split | now left].
Qed.

#[local] Instance one_alert_pre (event : string) (T : list Q) : PreOrder (one_alert event T).
Proof.
  split.
  - intros st. now apply one_alert_untouched.
  - intros s1 s2 s3 [Hlock12 Hrows12] [Hlock23 Hrows23]. split.
    + intros Hl. destruct (Hlock12 Hl) as [E12 Hl2]. destruct (Hlock23 Hl2) as [E23 Hl3].
      split; [congruence | exact Hl3].
    + destruct Hrows12 as [E12|[[row E12] Hl2]].
      * rewrite <- E12. exact Hrows23.
      * destruct (Hlock23 Hl2) as [E23 Hl3]. right. split; [|exact Hl3].
        exists row. congruence.
Qed.

Section Window.

Context {collab : Collaborators}.

Lemma log_and_alert_one_alert (event : string) (T : list Q) (c : AlertCall) :
  within_window T = true ->
  (call_event c = event -> In (time_time (call_clock c)) T) ->
  respects true (one_alert event T)
           (log_and_alert (call_id c) (call_event c) (call_clock c)).
Proof.
  intros Hwin Hin. apply (respects_log_and_alert true (one_alert event T)).
  - intros _ st. now apply one_alert_untouched.
  - intros _ st. now apply one_alert_untouched.
  - intros st Hadm. apply cooldown_elapsed_spec in Hadm.
    destruct (String.eqb_spec (call_event c) event) as [E|Hne].
    + specialize (Hin E). rewrite E in *. split.
      * intros (t & Ht & Hsupp). exfalso.
        specialize (Hsupp _ Hin). rewrite Ht in Hadm. cbn [default] in Hadm.
        unfold id in Hadm. lra.
      * right. split.
        -- eexists. unfold event_rows. rewrite dispatched_logs, List.filter_app.
           cbn [List.filter row_event]. rewrite String.eqb_refl. reflexivity.
        -- exists (time_time (call_clock c)). split; [apply dispatched_last_same|].
           intros t' Ht'. now apply (within_window_spec T).
    + assert (Hrows : event_rows event (dispatched (call_id c) (call_event c) (call_clock c) st)
                      = event_rows event st).
      { unfold event_rows. rewrite dispatched_logs, List.filter_app.
        cbn [List.filter row_event].
        destruct (String.eqb_spec (call_event c) event); [contradiction|].
        apply app_nil_r. }
      assert (Hlast : last_alert_time (dispatched (call_id c) (call_event c) (call_clock c) st)
                      !! event = last_alert_time st !! event)
        by (apply dispatched_last_other; congruence).
      unfold one_alert, locked. rewrite Hrows, Hlast.
      split; [intros H; now split | now left].
Qed.

End Window.

(** ** The ledger only grows, by rows that are well tagged *)

#[local] Instance ledger_grows_pre : PreOrder ledger_grows.
Proof.
  split.
  - intros st. exists []. split; [now rewrite app_nil_r | constructor].
  - intros s1 s2 s3 (rows & E12 & H12) (rows' & E23 & H23).
    exists (rows ++ rows'). split.
    + rewrite E23, E12. now rewrite app_assoc.
    + apply Forall_app. now split.
Qed.

Lemma ledger_untouched (st st' : State) : logs st' = logs st -> ledger_grows st st'.
Proof. intros E. exists []. split; [now rewrite app_nil_r | constructor]. Qed.

Section Ledger.

Context {collab : Collaborators}.

(** X3. Over a whole run of [monitor_stream], whatever its outcome, the
    ledger keeps the rows it had, in their order, and every row added
    carries either "unknown" with one of the events "Camera turned off" and
    "User left screen", or an identifier of 32 characters with one of the
    four verdict events; no row carries "Blinking". *)
Theorem X3_ledger_grows_by_tagged_rows (frames : list Frame) (st : State) :
  exists rows,
    logs (fst (monitor_stream frames st)) = logs st ++ rows
    /\ Forall well_tagged rows
    /\ Forall (fun r => row_event r <> "Blinking"%string) rows.
Proof.
  assert (Hgrow : ledger_grows st (fst (monitor_stream frames st))).
  { apply respects_strict.
    apply (monitor_stream_respects true ledger_grows);
      try (intros; now apply ledger_untouched).
    - intros face_id. apply respects_step. intros s. now apply ledger_untouched.
    - intros c Hc. apply (respects_log_and_alert true ledger_grows).
      + intros _ s. now apply ledger_untouched.
      + intros _ s. now apply ledger_untouched.
      + intros s _. eexists. split; [apply dispatched_logs|].
        constructor; [|constructor]. unfold well_tagged. cbn [row_face_id row_event].
        destruct (run_calls_tagged frames c Hc) as [[Hid Hev]|[[sh Hid] Hev]].
        * left. now split.
        * right. split; [|exact Hev]. rewrite Hid. apply hexdigest_length. }
  destruct Hgrow as (rows & Hrows & Htagged). exists rows.
  split; [exact Hrows|]. split; [exact Htagged|].
  eapply Forall_impl; [exact Htagged|].
  intros r [[_ [E|E]]|[_ E]] Hblink; rewrite Hblink in E; try discriminate.
  cbn in E. destruct E as [E|[E|[E|[E|[]]]]]; discriminate.
Qed.

End Ledger.

(** ** Warnings, sink calls and ledger rows go together *)

#[local] Instance calls_ordered_pre : PreOrder calls_ordered.
Proof.
  split.
  - intros st. unfold calls_ordered. lia.
  - intros s1 s2 s3. unfold calls_ordered. lia.
Qed.

#[local] Instance calls_matched_pre : PreOrder calls_matched.
Proof.
  split.
  - intros st. unfold calls_matched. lia.
  - intros s1 s2 s3. unfold calls_matched. lia.
Qed.

Section Counts.

Context {collab : Collaborators}.

Lemma log_and_alert_calls_ordered (face_id event : string) (clk : Clock) :
  String.eqb event "Blinking" = false ->
  respects true calls_ordered (log_and_alert face_id event clk).
Proof.
  intros Hne. apply (respects_log_and_alert true calls_ordered).
  all: (intros st _ || intros _ st); unfold calls_ordered, blink_calls; cbn;
    rewrite ?List.filter_app, ?length_app; cbn; unfold is_blink_call; cbn;
    rewrite ?Hne; cbn; lia.
Qed.

Lemma log_and_alert_calls_matched (face_id event : string) (clk : Clock) :
  respects false calls_matched (log_and_alert face_id event clk).
Proof.
  apply (respects_log_and_alert false calls_matched); try discriminate.
  intros st _. unfold calls_matched. cbn. rewrite ?length_app. cbn. lia.
Qed.

(** X4. Over a whole run of [monitor_stream], whatever its outcome, the
    rows added to the ledger are at most as many as the calls of
    [notify_tutor], which are at most as many as the warnings issued, and
    the calls of [log_event] are exactly those of the warnings and of the
    blinks. When the run returns, rows, notifications and warnings have
    been added in equal number: every alert that was warned about is in the
    ledger. *)
Theorem X4_rows_notifications_warnings (frames : list Frame) (st : State) :
  let st' := fst (monitor_stream frames st) in
  (added logs st st' <= added notify_calls st st')%nat
  /\ (added notify_calls st st' <= added warnings st st')%nat
  /\ added log_calls st st' = (added warnings st st' + added blink_calls st st')%nat
  /\ (returned (snd (monitor_stream frames st)) = true ->
      added logs st st' = added notify_calls st st'
      /\ added notify_calls st st' = added warnings st st').
Proof.
  intros st'.
  assert (Hord : calls_ordered st st').
  { apply respects_strict.
    apply (monitor_stream_respects true calls_ordered);
      try (intros; unfold calls_ordered, blink_calls; cbn; lia).
    - intros face_id. apply respects_step. intros s.
      unfold calls_ordered, blink_calls. cbn.
      rewrite ?List.filter_app, ?length_app. cbn. lia.
    - intros c Hc. apply log_and_alert_calls_ordered.
      now apply (run_calls_not_blink frames). }
  unfold added. unfold calls_ordered in Hord.
  split; [lia|]. split; [lia|]. split; [lia|].
  intros Hret.
  assert (Hmat : calls_matched st st').
  { apply respects_returned; [|exact Hret].
    apply (monitor_stream_respects false calls_matched);
      try (intros; unfold calls_matched; cbn; lia).
    - intros face_id. apply respects_step. intros s. unfold calls_matched. cbn. lia.
    - intros c _. apply log_and_alert_calls_matched. }
  unfold calls_matched in Hmat. lia.
Qed.

End Counts.

(** ** Every row comes from a call of the run *)

#[local] Instance alerts_among_pre (calls : list AlertCall) : PreOrder (alerts_among calls).
Proof.
  split.
  - intros st. split; [reflexivity|].
    exists []. split; [now rewrite app_nil_r | constructor].
  - intros s1 s2 s3 [Hk12 (rows & E12 & H12)] [Hk23 (rows' & E23 & H23)]. split.
    + intros key Hkey. rewrite (Hk23 key Hkey). now apply Hk12.
    + exists (rows ++ rows'). split.
      * rewrite E23, E12. now rewrite app_assoc.
      * apply Forall_app. now split.
Qed.


Section Provenance.

Context {collab : Collaborators}.


End Provenance.

(** ** Runs over frames put end to end *)

Section Sequence.

Context {collab : Collaborators}.

Lemma frame_loop_app (a b : list Frame) (st : State) :
  frame_loop (a ++ b) st
  = match frame_loop a st with
    | (st1, Returned Iterating) => frame_loop b st1
    | (st1, Returned Exited) => (st1, Returned Exited)
    | (st1, Raised e) => (st1, Raised e)
    end.
Proof.
  revert st. induction a as [|f a IH]; intros st; [reflexivity|].
  cbn [app frame_loop]. rewrite !bind_run. unfold observe_stop. cbn [set_stop_flag].
  destruct (negb (is_opened f)); [reflexivity|].
  rewrite !bind_run.
  match goal with |- context [iteration f ?s] => destruct (iteration f s) as [st1 [[|]|e]] end.
  - apply IH.
  - reflexivity.
  - reflexivity.
Qed.


End Sequence.

(** ** When a stop request takes effect *)

Section StopLatency.

Context {collab : Collaborators} (Hrel : sinks_reliable).

Lemma faceless_processes_nothing (f : Frame) :
  faceless f = true ->
  forallb (fun face => well_formed (shape face)) (faces_processed f) = true.
Proof.
  unfold faceless, faces_processed. intros H.
  apply andb_prop in H as [_ H]. destruct (camera_off f); [reflexivity|].
  cbn [orb] in H. apply Nat.eqb_eq, length_zero_iff_nil in H. now rewrite H.
Qed.

(** Frames without a face are gone through without reading the stop entry,
    which keeps every request made meanwhile. *)
Lemma faceless_run (pre : list Frame) (st : State) :
  forallb faceless pre = true ->
  exists st1,
    frame_loop pre st = (st1, Returned Iterating)
    /\ stop_polls st1 = stop_polls st
    /\ stop_flag st1 = stop_flag st || existsb stop_pressed pre.
Proof.
  revert st. induction pre as [|f pre IH]; intros st Hall.
  - exists st. cbn. now rewrite orb_false_r.
  - cbn [forallb] in Hall. apply andb_prop in Hall as [Hf Hpre].
    pose proof (faceless_processes_nothing f Hf) as Hwf.
    unfold faceless in Hf. apply andb_prop in Hf as [Hopen Hcase].
    cbn [frame_loop]. rewrite bind_run. unfold observe_stop. cbn [set_stop_flag].
    rewrite Hopen. cbn [negb]. rewrite bind_run.
    match goal with |- context [iteration f ?s] => set (st_o := s) end.
    destruct (total_run (iteration f) st_o (iteration_total Hrel f Hwf))
      as (flow & st1 & Hrun).
    assert (Hnone : camera_off f = true \/ faces f = []).
    { apply orb_prop in Hcase as [H|H]; [now left|].
      right. now apply Nat.eqb_eq, length_zero_iff_nil in H. }
    destruct (iteration_without_face_never_polls f st_o Hnone) as [Hpolls Hflow].
    pose proof (iteration_stop_same f st_o) as Hflag. unfold stop_same in Hflag.
    rewrite Hrun in *. cbn [fst snd] in *.
    destruct flow; [|congruence].
    subst st_o. cbn [stop_flag stop_polls] in Hpolls, Hflag.
    destruct (IH st1 Hpre) as (st2 & Hloop & Hpolls2 & Hflag2).
    exists st2. split; [exact Hloop|]. split; [congruence|].
    rewrite Hflag2, Hflag. cbn [existsb]. now rewrite orb_assoc.
Qed.

(** With the stop entry set, a frame with faces ends the loop after one
    read of the entry, whatever frames follow. *)
Lemma face_frame_stops (f : Frame) (post : list Frame) (st : State) :
  face_frame f = true ->
  stop_flag st || stop_pressed f = true ->
  exists st2,
    frame_loop (f :: post) st = (st2, Returned Exited)
    /\ frame_loop [f] st = (st2, Returned Exited)
    /\ stop_polls st2 = S (stop_polls st)
    /\ cap_released st2 = cap_released st.
Proof.
  unfold face_frame. intros Hf Hstop.
  apply andb_prop in Hf as [Hf Hwf]. apply andb_prop in Hf as [Hf Hlen].
  apply andb_prop in Hf as [Hopen Hoff].
  apply negb_true_iff in Hoff, Hlen. unfold camera_off in Hoff.
  cbn [frame_loop]. rewrite !bind_run. unfold observe_stop. cbn [set_stop_flag].
  rewrite Hopen, Hstop. cbn [negb]. rewrite !bind_run.
  unfold iteration. rewrite Hoff, Hlen. rewrite !bind_run.
  cbn [update_absence set_absence_timer]. rewrite !bind_run.
  match goal with |- context [for_each process_face (faces f) ?s] => set (st_a := s) end.
  destruct (total_run (for_each process_face (faces f)) st_a (faces_total Hrel _ Hwf))
    as ([] & st_b & Hrun).
  pose proof (faces_control (faces f) st_a) as (Hflag & Hpolls & Hcap).
  rewrite Hrun in *. cbn [fst] in *. rewrite !bind_run. cbn [poll_stop].
  rewrite Hflag. subst st_a. cbn [stop_flag stop_polls cap_released] in *.
  eexists. split; [reflexivity|]. split; [reflexivity|].
  cbn [stop_polls cap_released]. split; congruence.
Qed.

(** X7. Let a stop request be made at the latest during a frame that is
    read, shows faces with coordinates in range, and comes after frames on
    which no face is processed. With sinks that return, [monitor_stream]
    reads the stop entry for the first time at the end of that frame, ends
    there, releases the capture handle and clears the entry; the frames
    that follow are not looked at. *)
Theorem X7_stop_takes_effect_at_first_face
    (pre : list Frame) (f : Frame) (post : list Frame) (st : State) :
  forallb faceless pre = true ->
  face_frame f = true ->
  stop_flag st || existsb stop_pressed (pre ++ [f]) = true ->
  let r := monitor_stream (pre ++ f :: post) st in
  snd r = Returned Exited
  /\ stop_polls (fst r) = S (stop_polls st)
  /\ cap_released (fst r) = true
  /\ stop_flag (fst r) = false
  /\ r = monitor_stream (pre ++ [f]) st.
Proof.
  intros Hpre Hf Hstop r. subst r.
  destruct (faceless_run pre st Hpre) as (st1 & Hloop & Hpolls & Hflag).
  assert (Hstop1 : stop_flag st1 || stop_pressed f = true).
  { rewrite Hflag. rewrite existsb_app in Hstop. cbn [existsb] in Hstop.
    rewrite orb_false_r, orb_assoc in Hstop. exact Hstop. }
  destruct (face_frame_stops f post st1 Hf Hstop1) as (st2 & Hrun & Hrun1 & Hpolls2 & _).
  unfold monitor_stream. rewrite !bind_run, !frame_loop_app, Hloop, Hrun, Hrun1.
  unfold mbind, M_bind, mret, M_ret. cbn. repeat split. congruence.
Qed.

End StopLatency.

(** ** The hashed buffer determines the landmarks *)

(** X8. Two landmark sequences with coordinates in range that are
    serialized to the same buffer are the same sequence: [get_face_id] can
    give one identifier to two different sets of landmarks only through a
    collision of the digest. *)
Theorem X8_serialize_injective (shape1 shape2 : Shape) :
  well_formed shape1 = true ->
  well_formed shape2 = true ->
  serialize shape1 = serialize shape2 ->
  shape1 = shape2.
Proof.
  intros Hwf1 Hwf2 Heq.
  assert (Hlen : length shape1 = length shape2).
  { pose proof (serialize_length shape1) as H1.
    pose proof (serialize_length shape2) as H2.
    rewrite Heq in H1. lia. }
  rewrite <- (deserialize_serialize shape1 Hwf1), <- (deserialize_serialize shape2 Hwf2).
  now rewrite Heq, Hlen.
Qed.

(** ** The blocks of the digest *)

Section Blocks.

Lemma chunks_cover (n : nat) (data : list Z) :
  length data = (64 * n)%nat ->
  concat (MD5.chunks n data) = data
  /\ Forall (fun block => length block = 64%nat) (MD5.chunks n data)
  /\ length (MD5.chunks n data) = n.
Proof.
  revert data. induction n as [|n IH]; intros data Hlen; cbn [MD5.chunks concat length].
  - destruct data; [|cbn in Hlen; lia]. repeat split. constructor.
  - assert (Hrest : length (skipn 64 data) = (64 * n)%nat)
      by (rewrite length_skipn; lia).
    destruct (IH _ Hrest) as (Hcat & Hall & Hcount).
    rewrite Hcat, Hcount. split; [apply firstn_skipn|]. split; [|reflexivity].
    constructor; [|exact Hall]. rewrite length_firstn. lia.
Qed.

Lemma pad_length (msg : list Z) :
  exists n : nat, length (MD5.pad msg) = (64 * n)%nat /\ (1 <= n)%nat.
Proof.
  unfold MD5.pad. rewrite !length_app, repeat_length. cbn [length MD5.le_bytes].
  set (len := Z.of_nat (length msg)).
  pose proof (Z.mod_pos_bound (55 - len) 64 ltac:(lia)) as Hz.
  exists (Z.to_nat ((len + 9 + (55 - len) mod 64) / 64)).
  assert (Hdiv : (len + 9 + (55 - len) mod 64) mod 64 = 0)
    by (Z.div_mod_to_equations; lia).
  assert (Hq : 1 <= (len + 9 + (55 - len) mod 64) / 64)
    by (Z.div_mod_to_equations; lia).
  pose proof (Z.div_mod (len + 9 + (55 - len) mod 64) 64 ltac:(lia)) as Hdm.
  rewrite Hdiv in Hdm. subst len. lia.
Qed.

(** X9. The padding of the digest keeps the message in front, follows it
    with the byte 128, and makes the length a multiple of 64: the blocks
    that [MD5.digest] folds over are at least one, have 64 bytes each, and
    put end to end give back the whole padded message, so that every byte
    of the landmark buffer enters the digest. *)
Theorem X9_digest_blocks_cover_the_buffer (msg : list Z) :
  let padded := MD5.pad msg in
  let blocks := MD5.chunks (length padded / 64) padded in
  concat blocks = padded
  /\ Forall (fun block => length block = 64%nat) blocks
  /\ (1 <= length blocks)%nat
  /\ firstn (length msg) padded = msg
  /\ nth (length msg) padded 0 = 128.
Proof.
  intros padded blocks.
  destruct (pad_length msg) as (n & Hlen & Hn). fold padded in Hlen.
  assert (Hdiv : (length padded / 64 = n)%nat).
  { rewrite Hlen, Nat.mul_comm. apply Nat.div_mul. lia. }
  subst blocks. rewrite Hdiv.
  destruct (chunks_cover n padded Hlen) as (Hcat & Hall & Hcount).
  split; [exact Hcat|]. split; [exact Hall|]. split; [lia|].
  subst padded. unfold MD5.pad. split.
  - rewrite firstn_app, Nat.sub_diag, firstn_all. cbn [firstn]. apply app_nil_r.
  - rewrite app_nth2, Nat.sub_diag by lia. reflexivity.
Qed.

End Blocks.

(** ** What the collaborators are called with *)

#[local] Instance sink_calls_among_pre (calls : list AlertCall) :
  PreOrder (sink_calls_among calls).
Proof.
  split.
  - intros st. repeat split; exists []; (split; [now rewrite app_nil_r | constructor]).
  - intros s1 s2 s3 ((ws & Ew & Hw) & (ns & En & Hn) & (ls & El & Hl))
                    ((ws' & Ew' & Hw') & (ns' & En' & Hn') & (ls' & El' & Hl')).
    repeat split.
    + exists (ws ++ ws'). split; [rewrite Ew', Ew; now rewrite app_assoc|].
      apply Forall_app. now split.
    + exists (ns ++ ns'). split; [rewrite En', En; now rewrite app_assoc|].
      apply Forall_app. now split.
    + exists (ls ++ ls'). split; [rewrite El', El; now rewrite app_assoc|].
      apply Forall_app. now split.
Qed.

Lemma sink_calls_untouched (calls : list AlertCall) (st st' : State) :
  warnings st' = warnings st -> notify_calls st' = notify_calls st ->
  log_calls st' = log_calls st ->
  sink_calls_among calls st st'.
Proof.
  intros Hw Hn Hl. rewrite <- (app_nil_r (warnings st)) in Hw.
  rewrite <- (app_nil_r (notify_calls st)) in Hn.
  rewrite <- (app_nil_r (log_calls st)) in Hl.
  repeat split; eexists; (split; [eassumption | constructor]).
Qed.

Section SinkCalls.

Context {collab : Collaborators}.

Lemma log_and_alert_sink_calls (calls : list AlertCall) (c : AlertCall) :
  In c calls ->
  respects true (sink_calls_among calls)
           (log_and_alert (call_id c) (call_event c) (call_clock c)).
Proof.
  intros Hc.
  assert (Hw : forall l : list string,
             exists ws, l ++ [call_event c] = l ++ ws
                        /\ Forall (fun w => exists c, In c calls /\ w = call_event c) ws).
  { intros l. exists [call_event c]. split; [reflexivity|].
    constructor; [now exists c | constructor]. }
  assert (Hn : forall l : list string,
             exists ns, l ++ [call_id c] = l ++ ns
                        /\ Forall (fun n => exists c, In c calls /\ n = call_id c) ns).
  { intros l. exists [call_id c]. split; [reflexivity|].
    constructor; [now exists c | constructor]. }
  assert (Hl : forall l : list (string * string),
             exists ls, l ++ [(call_id c, call_event c)] = l ++ ls
                        /\ Forall (fun l => (exists c, In c calls
                                                       /\ l = (call_id c, call_event c))
                                            \/ snd l = "Blinking"%string) ls).
  { intros l. exists [(call_id c, call_event c)]. split; [reflexivity|].
    constructor; [left; now exists c | constructor]. }
  assert (Hnone : forall l : list string,
             exists ns, l = l ++ ns
                        /\ Forall (fun n => exists c, In c calls /\ n = call_id c) ns).
  { intros l. exists []. split; [now rewrite app_nil_r | constructor]. }
  apply (respects_log_and_alert true (sink_calls_among calls)).
  - intros _ st. split; [apply Hw|]. split; [apply Hnone | apply Hl].
  - intros _ st. split; [apply Hw|]. split; [apply Hn | apply Hl].
  - intros st _. split; [apply Hw|]. split; [apply Hn | apply Hl].
Qed.

(** X10. Over a whole run of [monitor_stream], whatever its outcome, the
    warning manager is only given event kinds of calls of the run,
    [notify_tutor] is only called with "unknown" or with the digest of a
    face on which a verdict fired, and [log_event] is only called with the
    identifier and event of such a call or with the event "Blinking"; the
    calls made before the run stay recorded in their order. *)
Theorem X10_collaborators_are_called_for_run_calls (frames : list Frame) (st : State) :
  let st' := fst (monitor_stream frames st) in
  (exists ws, warnings st' = warnings st ++ ws
              /\ Forall (fun w => exists c, In c (run_calls frames) /\ w = call_event c) ws)
  /\ (exists ns, notify_calls st' = notify_calls st ++ ns
                 /\ Forall (fun n => exists c, In c (run_calls frames) /\ n = call_id c) ns)
  /\ (exists ls, log_calls st' = log_calls st ++ ls
                 /\ Forall (fun l => (exists c, In c (run_calls frames)
                                                /\ l = (call_id c, call_event c))
                                     \/ snd l = "Blinking"%string) ls).
Proof.
  intros st'. change (sink_calls_among (run_calls frames) st st').
  apply respects_strict.
  apply (monitor_stream_respects true (sink_calls_among (run_calls frames)));
    try (intros; now apply sink_calls_untouched).
  - intros face_id. apply respects_step. intros s. repeat split.
    + exists []. split; [cbn; now rewrite app_nil_r | constructor].
    + exists []. split; [cbn; now rewrite app_nil_r | constructor].
    + exists [(face_id, "Blinking"%string)]. split; [reflexivity|].
      constructor; [now right | constructor].
  - intros c Hc. now apply log_and_alert_sink_calls.
Qed.

End SinkCalls.

(** ** The identifier is written in hexadecimal digits *)

Lemma hex_char_is_digit (d : Z) : 0 <= d < 16 -> is_hex_digit (MD5.hex_char d) = true.
Proof.
  intros Hd.
  assert (Hcases : d = 0 \/ d = 1 \/ d = 2 \/ d = 3 \/ d = 4 \/ d = 5 \/ d = 6 \/ d = 7
                   \/ d = 8 \/ d = 9 \/ d = 10 \/ d = 11 \/ d = 12 \/ d = 13 \/ d = 14
                   \/ d = 15) by lia.
  repeat (destruct Hcases as [->|Hcases]; [reflexivity|]). now subst d.
Qed.

Lemma hex_digits (bs : list Z) :
  forallb is_byte bs = true ->
  forallb is_hex_digit (list_ascii_of_string (MD5.hex bs)) = true.
Proof.
  induction bs as [|b bs IH]; intros Hbytes; [reflexivity|].
  cbn [forallb] in Hbytes. apply andb_prop in Hbytes as [Hb Hbs].
  unfold is_byte in Hb. apply andb_prop in Hb as [Hlo Hhi].
  apply Z.leb_le in Hlo. apply Z.ltb_lt in Hhi.
  cbn [MD5.hex list_ascii_of_string forallb].
  rewrite !hex_char_is_digit, (IH Hbs); [reflexivity| |].
  - apply Z.mod_pos_bound. lia.
  - split; [apply Z.div_pos; lia | apply Z.div_lt_upper_bound; lia].
Qed.

(** X11. Whenever [get_face_id] returns, the identifier is made of 32
    lowercase hexadecimal digits, whatever the number of landmarks; it can
    therefore never be the identifier "unknown" of the camera and absence
    alerts. *)
Theorem X11_identifier_is_hexadecimal (shape : Shape) (face_id : string) :
  get_face_id shape = Returned face_id ->
  String.length face_id = 32%nat
  /\ forallb is_hex_digit (list_ascii_of_string face_id) = true
  /\ face_id <> "unknown"%string.
Proof.
  rewrite get_face_id_eq. destruct (well_formed shape); [|discriminate].
  intros [= <-].
  assert (Hlen : String.length (MD5.hexdigest (serialize shape)) = 32%nat)
    by apply hexdigest_length.
  split; [exact Hlen|]. split.
  - unfold MD5.hexdigest. apply hex_digits, digest_bytes.
  - intros E. rewrite E in Hlen. discriminate.
Qed.

(** ** The whole-run properties on concrete runs *)

Import Runs.

(** The outage of three failed reads within eight seconds leaves one row. *)
Example storm_leaves_one_row :
  map row_event (logs (fst (monitor_stream (collab := reliable) storm fresh)))
  = ["Camera turned off"%string].
Proof. vm_compute. reflexivity. Qed.

Lemma X4_witness :
  returned (snd (monitor_stream (collab := reliable) storm fresh)) = true
  /\ added logs fresh (fst (monitor_stream (collab := reliable) storm fresh))
     = added notify_calls fresh (fst (monitor_stream (collab := reliable) storm fresh))
  /\ added notify_calls fresh (fst (monitor_stream (collab := reliable) storm fresh))
     = added warnings fresh (fst (monitor_stream (collab := reliable) storm fresh)).
Proof.
  split; [reflexivity|].
  destruct (@X4_rows_notifications_warnings reliable storm fresh) as (_ & _ & _ & Hret).
  exact (Hret eq_refl).
Defined.


Lemma X7_witness :
  forallb faceless before_face = true
  /\ face_frame with_face = true
  /\ stop_flag fresh || existsb stop_pressed (before_face ++ [with_face]) = true
  /\ snd (monitor_stream (collab := reliable) (before_face ++ with_face :: afterwards) fresh)
     = Returned Exited
  /\ stop_polls (fst (monitor_stream (collab := reliable)
                        (before_face ++ with_face :: afterwards) fresh)) = 1%nat.
Proof.
  split; [reflexivity|]. split; [reflexivity|]. split; [reflexivity|].
  destruct (@X7_stop_takes_effect_at_first_face reliable reliable_sinks
              before_face with_face afterwards fresh eq_refl eq_refl eq_refl)
    as (Hret & Hpolls & _).
  split; [exact Hret | exact Hpolls].
Defined.

Lemma X8_witness :
  well_formed left_shape = true
  /\ well_formed right_shape = true
  /\ serialize left_shape = serialize left_shape
  /\ left_shape = left_shape
  /\ serialize left_shape <> serialize right_shape.
Proof.
  split; [reflexivity|]. split; [reflexivity|]. split; [reflexivity|].
  split; [exact (@X8_serialize_injective left_shape left_shape eq_refl eq_refl eq_refl)|].
  intros Heq.
  pose proof (@X8_serialize_injective left_shape right_shape eq_refl eq_refl Heq) as Hsame.
  discriminate Hsame.
Defined.

Lemma X11_witness :
  get_face_id two_landmarks = Returned "559a7fe4ecbc1292aabb999576fb19ef"%string
  /\ forallb is_hex_digit (list_ascii_of_string "559a7fe4ecbc1292aabb999576fb19ef") = true.
Proof.
  assert (Hid : get_face_id two_landmarks
                = Returned "559a7fe4ecbc1292aabb999576fb19ef"%string)
    by (vm_compute; reflexivity).
  split; [exact Hid|].
  exact (proj1 (proj2 (@X11_identifier_is_hexadecimal two_landmarks _ Hid))).
Defined.

(** ** At most one alert of a kind within the window of the readings taken *)

Section WindowOfTheRun.

Context {collab : Collaborators}.
Context (event : string) (T : list Q) (Hwin : within_window T = true).

Lemma call_one_alert (c : AlertCall) (st : State) :
  reading_in event T c ->
  one_alert event T st (fst (log_and_alert (call_id c) (call_event c) (call_clock c) st)).
Proof.
  intros Hc. apply (respects_strict (one_alert event T)).
  now apply log_and_alert_one_alert.
Qed.

Lemma when_call_one_alert (b : bool) (face_id ev : string) (clk : Clock) (st : State) :
  Forall (reading_in event T) (call_if b face_id ev clk) ->
  one_alert event T st (fst (when b (log_and_alert face_id ev clk) st)).
Proof.
  destruct b; cbn [call_if when]; intros H.
  - inversion H as [|c l Hc _]; subst.
    exact (call_one_alert {| call_id := face_id; call_event := ev; call_clock := clk |} st Hc).
  - reflexivity.
Qed.

Lemma steps_one_alert (steps : list (list AlertCall * M unit)) (st : State) :
  Forall (fun step => forall s, Forall (reading_in event T) (fst step) ->
                                one_alert event T s (fst (snd step s))) steps ->
  Forall (reading_in event T) (steps_calls steps st) ->
  one_alert event T st (fst (run_steps steps st)).
Proof.
  intros Hsound. revert st.
  induction Hsound as [|[calls m] rest Hstep _ IH]; intros st Hcalls.
  - reflexivity.
  - cbn [steps_calls fst snd] in *. apply Forall_app in Hcalls as [Hhere Hrest].
    unfold run_steps in *. cbn [for_each snd]. rewrite bind_run.
    specialize (Hstep st Hhere).
    destruct (m st) as [st1 [[]|e]]; cbn [fst] in *.
    + transitivity st1; [exact Hstep|]. now apply IH.
    + exact Hstep.
Qed.

Lemma verdict_steps_sound (face_id : string) (f : FaceObs) :
  Forall (fun step => forall s, Forall (reading_in event T) (fst step) ->
                                one_alert event T s (fst (snd step s)))
         (verdict_steps face_id f).
Proof.
  unfold verdict_steps.
  repeat (constructor; [cbn [fst snd]; intros s H; try now apply when_call_one_alert|]).
  - destruct (is_blinking (shape f)); cbn [when]; [|reflexivity].
    now apply one_alert_untouched.
  - constructor.
Qed.

(** [dispatch_verdicts] runs its five steps one after the other. *)
Lemma dispatch_verdicts_run_steps (face_id : string) (f : FaceObs) (st : State) :
  dispatch_verdicts face_id f st = run_steps (verdict_steps face_id f) st.
Proof.
  unfold dispatch_verdicts, run_steps, verdict_steps. cbn [for_each snd].
  repeat (rewrite !bind_run;
          match goal with
          | |- context [match ?m ?s with _ => _ end] =>
              destruct (m s) as [? [[]|?]]; [|reflexivity]
          end).
  reflexivity.
Qed.

Lemma process_face_one_alert (f : FaceObs) (st : State) :
  Forall (reading_in event T) (face_calls_made f st) ->
  one_alert event T st (fst (process_face f st)).
Proof.
  unfold face_calls_made, process_face. rewrite bind_run. unfold lift.
  destruct (get_face_id (shape f)) as [face_id|e]; intros H.
  - rewrite dispatch_verdicts_run_steps.
    apply steps_one_alert; [apply verdict_steps_sound | exact H].
  - reflexivity.
Qed.

Lemma faces_one_alert (fs : list FaceObs) (st : State) :
  Forall (reading_in event T) (faces_calls_made fs st) ->
  one_alert event T st (fst (for_each process_face fs st)).
Proof.
  revert st. induction fs as [|face rest IH]; intros st Hcalls.
  - reflexivity.
  - cbn [faces_calls_made] in Hcalls. apply Forall_app in Hcalls as [Hhere Hrest].
    cbn [for_each]. rewrite bind_run.
    pose proof (process_face_one_alert face st Hhere) as Hface.
    destruct (process_face face st) as [st1 [[]|e]]; cbn [fst] in *.
    + transitivity st1; [exact Hface|]. now apply IH.
    + exact Hface.
Qed.

Lemma iteration_one_alert (f : Frame) (st : State) :
  Forall (reading_in event T) (iteration_calls_made f st) ->
  one_alert event T st (fst (iteration f st)).
Proof.
  unfold iteration_calls_made, iteration, camera_off.
  destruct (negb (ret f) || negb (is_camera_on f)); [|destruct (length (faces f) =? 0)%nat].
  - intros H. rewrite bind_run.
    pose proof (when_call_one_alert true _ _ _ st H) as Hcall. cbn [when] in Hcall.
    destruct (log_and_alert _ _ _ st) as [st1 [[]|e]]; exact Hcall.
  - intros H. rewrite bind_run. unfold update_absence at 1, set_absence_timer.
    rewrite bind_run. unfold exceeded_limit at 1. cbn [absence_timer].
    rewrite bind_run.
    match goal with
    | |- context [when ?b ?m ?s] =>
        pose proof (when_call_one_alert b _ _ _ s H) as Hcall;
        destruct (when b m s) as [st2 [[]|e]]; cbn [fst] in *
    end;
      (etransitivity; [|exact Hcall]); now apply one_alert_untouched.
  - intros H. rewrite bind_run.
    pose proof (faces_one_alert (faces f) _ H) as Hfaces.
    unfold update_absence, set_absence_timer in *. cbn [fst] in Hfaces.
    rewrite bind_run.
    match goal with
    | |- context [for_each ?b ?l ?s] =>
        destruct (for_each b l s) as [st2 [[]|e]]; cbn [fst] in *
    end.
    + rewrite bind_run. unfold poll_stop. cbn [fst].
      etransitivity; [now apply one_alert_untouched|].
      etransitivity; [exact Hfaces|]. now apply one_alert_untouched.
    + etransitivity; [|exact Hfaces]. now apply one_alert_untouched.
Qed.

Lemma frame_loop_one_alert (frames : list Frame) (st : State) :
  Forall (reading_in event T) (calls_made frames st) ->
  one_alert event T st (fst (frame_loop frames st)).
Proof.
  revert st. induction frames as [|f rest IH]; intros st Hcalls.
  - reflexivity.
  - cbn [calls_made frame_loop] in *. rewrite bind_run.
    unfold observe_stop, set_stop_flag in *. cbn [fst] in Hcalls.
    destruct (negb (is_opened f)).
    + now apply one_alert_untouched.
    + apply Forall_app in Hcalls as [Hhere Hrest].
      rewrite bind_run.
      pose proof (iteration_one_alert f _ Hhere) as Hiter.
      match goal with
      | |- context [iteration f ?s] =>
          destruct (iteration f s) as [st1 [[|]|e]]; cbn [fst] in *
      end.
      * etransitivity; [now apply one_alert_untouched|].
        etransitivity; [exact Hiter|]. now apply IH.
      * etransitivity; [|exact Hiter]. now apply one_alert_untouched.
      * etransitivity; [|exact Hiter]. now apply one_alert_untouched.
Qed.

Lemma monitor_stream_one_alert (frames : list Frame) (st : State) :
  Forall (reading_in event T) (calls_made frames st) ->
  one_alert event T st (fst (monitor_stream frames st)).
Proof.
  intros Hcalls. pose proof (frame_loop_one_alert frames st Hcalls) as Hloop.
  unfold monitor_stream. rewrite bind_run.
  destruct (frame_loop frames st) as [st1 [[|]|e]]; exact Hloop.
Qed.

End WindowOfTheRun.

(** *** The readings taken are among those the frames can give rise to *)

Section CallsMadeAmongRunCalls.

Context {collab : Collaborators}.

Lemma steps_calls_among (steps : list (list AlertCall * M unit)) (st : State)
    (c : AlertCall) :
  In c (steps_calls steps st) -> In c (flat_map fst steps).
Proof.
  revert st. induction steps as [|[calls m] rest IH]; intros st; cbn [steps_calls flat_map fst snd].
  - trivial.
  - rewrite !in_app_iff. intros [H|H]; [now left|]. right.
    destruct (m st) as [st1 [[]|e]]; [now apply (IH st1) | destruct H].
Qed.

Lemma face_calls_made_among (f : FaceObs) (st : State) (c : AlertCall) :
  In c (face_calls_made f st) -> In c (face_calls f).
Proof.
  unfold face_calls_made. rewrite get_face_id_eq.
  destruct (well_formed (shape f)); [|intros []].
  intros H. apply steps_calls_among in H. unfold verdict_steps in H.
  cbn [flat_map fst app] in H. rewrite app_nil_r in H. exact H.
Qed.

Lemma faces_calls_made_among (fs : list FaceObs) (st : State) (c : AlertCall) :
  In c (faces_calls_made fs st) -> In c (flat_map face_calls fs).
Proof.
  revert st. induction fs as [|face rest IH]; intros st; cbn [faces_calls_made flat_map].
  - trivial.
  - rewrite !in_app_iff. intros [H|H]; [left; now apply (face_calls_made_among face st)|].
    right. destruct (process_face face st) as [st1 [[]|e]]; [now apply (IH st1) | destruct H].
Qed.

Lemma iteration_calls_made_among (f : Frame) (st : State) (c : AlertCall) :
  In c (iteration_calls_made f st) -> In c (frame_calls f).
Proof.
  unfold iteration_calls_made, frame_calls.
  destruct (camera_off f); [trivial|].
  destruct (length (faces f) =? 0)%nat.
  - destruct (absence_exceeded _ _ _); [trivial | intros []].
  - apply faces_calls_made_among.
Qed.

Lemma calls_made_among (frames : list Frame) (st : State) (c : AlertCall) :
  In c (calls_made frames st) -> In c (run_calls frames).
Proof.
  unfold run_calls. revert st.
  induction frames as [|f rest IH]; intros st; cbn [calls_made flat_map].
  - trivial.
  - destruct (negb (is_opened f)); [intros []|].
    rewrite !in_app_iff. intros [H|H]; [left; now apply iteration_calls_made_among in H|].
    right. destruct (iteration f _) as [st1 [[|]|e]]; [now apply (IH st1) | destruct H | destruct H].
Qed.

Lemma readings_taken_In (frames : list Frame) (st : State) (c : AlertCall) :
  In c (calls_made frames st) ->
  In (time_time (call_clock c)) (readings_taken (call_event c) frames st).
Proof.
  intros Hin. unfold readings_taken.
  apply (in_map (fun c => time_time (call_clock c))).
  apply filter_In. split; [exact Hin | apply String.eqb_refl].
Qed.

(** X2. When the clock readings that a run takes for one event kind, in the
    calls of [log_and_alert] that the run reaches and makes, are all less
    than [ALERT_INTERVAL] apart, the run adds at most one ledger row of that
    kind, whatever the subjects; and it adds none when a time is already
    stored for the kind that is less than [ALERT_INTERVAL] before each of
    these readings.  The readings taken are those of [readings_taken]:
    frames after the one on which the loop ends or raises, verdicts after a
    call that raises and absence checks below the limit contribute none, so
    they are among the readings that the frames can give rise to. *)
Theorem X2_one_alert_per_kind_and_window
    (frames : list Frame) (st : State) (event : string) :
  within_window (readings_taken event frames st) = true ->
  let st' := fst (monitor_stream frames st) in
  (event_rows event st' = event_rows event st
   \/ exists row, event_rows event st' = event_rows event st ++ [row])
  /\ (forall t0 : Q,
        last_alert_time st !! event = Some t0 ->
        (forall t, In t (readings_taken event frames st) -> (t - t0 < ALERT_INTERVAL)%Q) ->
        event_rows event st' = event_rows event st)
  /\ (forall t : Q, In t (readings_taken event frames st) -> In t (run_readings event frames)).
Proof.
  intros Hwin st'.
  assert (Hone : one_alert event (readings_taken event frames st) st st').
  { apply monitor_stream_one_alert; [exact Hwin|].
    apply List.Forall_forall. intros c Hc Hev. rewrite <- Hev.
    now apply readings_taken_In. }
  destruct Hone as [Hlock Hrows]. split; [|split].
  - destruct Hrows as [E|[Hrow _]]; [now left | now right].
  - intros t0 Ht0 Hsupp. apply Hlock. now exists t0.
  - intros t Ht. unfold readings_taken in Ht. unfold run_readings.
    apply in_map_iff in Ht as (c & <- & Hc). apply filter_In in Hc as [Hc Hev].
    apply (in_map (fun c => time_time (call_clock c))).
    apply filter_In. split; [now apply (calls_made_among frames st) | exact Hev].
Qed.

End CallsMadeAmongRunCalls.

(** Two frames without a face, read at 50 and at 100, with a limit of two
    seconds: the check at 50 is below the limit, the one at 100 takes the
    only reading, and one row of the absence alert is added. *)
Lemma X2_witness :
  readings_taken (collab := reliable) "User left screen" long_absence fresh = [100%Q]
  /\ within_window (readings_taken (collab := reliable) "User left screen" long_absence fresh)
     = true
  /\ within_window (run_readings (collab := reliable) "User left screen" long_absence) = false
  /\ length (event_rows "User left screen"
               (fst (monitor_stream (collab := reliable) long_absence fresh))) = 1%nat
  /\ (event_rows "User left screen" (fst (monitor_stream (collab := reliable) long_absence fresh))
      = event_rows "User left screen" fresh
      \/ exists row,
           event_rows "User left screen"
                      (fst (monitor_stream (collab := reliable) long_absence fresh))
           = event_rows "User left screen" fresh ++ [row]).
Proof.
  split; [vm_compute; reflexivity|]. split; [vm_compute; reflexivity|].
  split; [vm_compute; reflexivity|]. split; [vm_compute; reflexivity|].
  exact (proj1 (@X2_one_alert_per_kind_and_window reliable long_absence fresh
                  "User left screen"%string eq_refl)).
Defined.
